(** * Malaysian income tax calculator: the calculation engine

    A shallow embedding of the numeric core of the calculator component
    ([App.tsx]) in its two revisions:

    - the revision that looks the tax up in a table of cumulative fixed
      amounts ([taxRanges]), with free-text EPF / SOCSO amounts and rebates;
    - the revision that walks the bracket table in a loop, accumulating the
      marginal tax bracket by bracket.

    JavaScript numbers are modelled by exact rationals ([Q]): binary rounding,
    [NaN] and the infinities are outside the model, and so are the texts
    that spell [Infinity] or exceed the range of a double.  Equality of
    amounts is therefore [Qeq] (written [==]). *)

From Stdlib Require Import QArith Qminmax Qpower Lqa ZArith Lia.
From Stdlib Require Import List Bool String Ascii.
Import ListNotations.

Open Scope Q_scope.

(** ** Data model *)

(** [interface TaxBracket { min: number; max: number | null; rate: number }] *)
Record TaxBracket : Set := mkBracket {
  min : Q;
  max : option Q;
  rate : Q
}.

(** [interface TaxRange { start: number; next: number | null; fixedAmount: number }] *)
Record TaxRange : Set := mkRange {
  start : Q;
  next : option Q;
  fixedAmount : Q
}.

(** [interface Deduction { id; label; maxAmount; defaultAmount? }] *)
Record Deduction : Set := mkDeduction {
  id : string;
  label : string;
  maxAmount : Q;
  defaultAmount : option Q
}.

(** ** Number helpers *)

(** [a <= b] on numbers, as a boolean. *)
Definition leb (a b : Q) : bool := Qle_bool a b.

(** [a > b] on numbers, as a boolean. *)
Definition gtb (a b : Q) : bool := negb (Qle_bool a b).

(** JavaScript truthiness of a number: every number but [0] (and [NaN],
    which the model does not have). *)
Definition truthy (v : Q) : bool := negb (Qeq_bool v 0).

(** [v || 0] on a number. *)
Definition orZero (v : Q) : Q := if truthy v then v else 0.

(** ** The bracket walk

    [calculateTax] of the loop revision, with the bracket table as a
    parameter.  The [for ... of] loop is the recursion over the table; the
    two mutable locals [totalTax] and [remainingIncome] are threaded through
    as arguments, and [break] returns the tax accumulated so far. *)

(** [bracket.max ? Math.min(remainingIncome, bracket.max - bracket.min + 1)
                 : remainingIncome]; a [max] of [null] or [0] is falsy. *)
Definition taxableAmountOf (bracket : TaxBracket) (remainingIncome : Q) : Q :=
  match max bracket with
  | Some m =>
      if truthy m then Qmin remainingIncome (m - min bracket + 1)
      else remainingIncome
  | None => remainingIncome
  end.

Fixpoint walkBrackets (brackets : list TaxBracket)
    (totalTax remainingIncome : Q) : Q :=
  match brackets with
  | [] => totalTax
  | bracket :: rest =>
      if leb remainingIncome 0 then totalTax
      else
        let taxableAmount := taxableAmountOf bracket remainingIncome in
        walkBrackets rest
          (totalTax + (taxableAmount * rate bracket) / 100)
          (remainingIncome - taxableAmount)
  end.

Definition calculateTaxWalk (brackets : list TaxBracket) (income : Q) : Q :=
  walkBrackets brackets 0 income.

(** ** The fixed-amount lookup

    [calculateTax] of the lookup revision, with both tables as parameters. *)

(** [income >= r.start && (r.next === null || income <= r.next)] *)
Definition inRange (income : Q) (r : TaxRange) : bool :=
  leb (start r) income &&
  match next r with None => true | Some n => leb income n end.

(** [income >= b.min && (b.max === null || income <= b.max)] *)
Definition inBracket (income : Q) (b : TaxBracket) : bool :=
  leb (min b) income &&
  match max b with None => true | Some m => leb income m end.

Definition calculateTaxLookup (ranges : list TaxRange)
    (brackets : list TaxBracket) (income : Q) : Q :=
  if leb income 0 then 0
  else
    match find (inRange income) ranges with
    | None => 0
    | Some range =>
        match find (inBracket income) brackets with
        | None => 0
        | Some bracket =>
            if leb income 5000 then 0
            else
              let excessAmount := income - start range in
              let taxOnExcess := (excessAmount * rate bracket) / 100 in
              fixedAmount range + taxOnExcess
        end
    end.

(** ** Text input

    Every amount reaches the engine as the text of an input field.  Strings
    are byte strings: a text is held by its UTF-8 bytes, and but for white
    space the characters that matter here are ASCII. *)

(** [\d] of a JavaScript regular expression without the [u] flag. *)
Definition isDigit (c : ascii) : bool :=
  ((48 <=? nat_of_ascii c) && (nat_of_ascii c <=? 57))%nat.

Definition digitValue (c : ascii) : Z := Z.of_nat (nat_of_ascii c - 48).

(** The ASCII members of [StrWhiteSpaceChar]: TAB, LF, VT, FF, CR, SP. *)
Definition isWhiteSpace (c : ascii) : bool :=
  let n := nat_of_ascii c in
  ((9 <=? n) && (n <=? 13) || (n =? 32))%nat.

(** The other members of [StrWhiteSpaceChar], by their UTF-8 bytes: U+00A0
    (C2 A0) on two bytes; on three bytes U+1680 (E1 9A 80), U+2000 to
    U+200A, U+2028, U+2029 and U+202F (E2 80 then 80 to 8A, A8, A9, AF),
    U+205F (E2 81 9F), U+3000 (E3 80 80) and U+FEFF (EF BB BF). *)
Definition isWideSpace2 (c1 c2 : ascii) : bool :=
  ((nat_of_ascii c1 =? 194) && (nat_of_ascii c2 =? 160))%nat.

Definition isWideSpace3 (c1 c2 c3 : ascii) : bool :=
  let n1 := nat_of_ascii c1 in
  let n2 := nat_of_ascii c2 in
  let n3 := nat_of_ascii c3 in
  ((n1 =? 225) && ((n2 =? 154) && (n3 =? 128))
   || (n1 =? 226) &&
      ((n2 =? 128) &&
       ((128 <=? n3) && (n3 <=? 138)
        || (n3 =? 168) || (n3 =? 169) || (n3 =? 175))
       || (n2 =? 129) && (n3 =? 159))
   || (n1 =? 227) && ((n2 =? 128) && (n3 =? 128))
   || (n1 =? 239) && ((n2 =? 187) && (n3 =? 191)))%nat.

Fixpoint filterChars (keep : ascii -> bool) (s : string) : string :=
  match s with
  | EmptyString => EmptyString
  | String c t =>
      if keep c then String c (filterChars keep t) else filterChars keep t
  end.

(** [s.replace(/,/g, '')] *)
Definition removeCommas (s : string) : string :=
  filterChars (fun c => negb (Ascii.eqb c ","%char)) s.

(** The text without its leading white space. *)
Fixpoint trimStart (s : string) : string :=
  match s with
  | String c1 t1 =>
      if isWhiteSpace c1 then trimStart t1
      else
        match t1 with
        | String c2 t2 =>
            if isWideSpace2 c1 c2 then trimStart t2
            else
              match t2 with
              | String c3 t3 =>
                  if isWideSpace3 c1 c2 c3 then trimStart t3 else s
              | EmptyString => s
              end
        | EmptyString => s
        end
  | EmptyString => EmptyString
  end.

(** The longest run of decimal digits at the head of [s], and what follows. *)
Fixpoint spanDigits (s : string) : string * string :=
  match s with
  | String c t =>
      if isDigit c then let '(ds, r) := spanDigits t in (String c ds, r)
      else (EmptyString, s)
  | EmptyString => (EmptyString, EmptyString)
  end.

Fixpoint digitsValue (acc : Z) (ds : string) : Z :=
  match ds with
  | String c t => digitsValue (10 * acc + digitValue c) t
  | EmptyString => acc
  end.

Definition readSign (s : string) : bool * string :=
  match s with
  | String "-"%char t => (true, t)
  | String "+"%char t => (false, t)
  | _ => (false, s)
  end.

(** [ExponentPart]: [e] or [E], an optional sign, at least one digit; when
    it is not there the scale is [10^0]. *)
Definition readExponent (s : string) : Z :=
  match s with
  | String c t =>
      if Ascii.eqb c "e"%char || Ascii.eqb c "E"%char then
        let '(negative, t') := readSign t in
        let '(ds, _) := spanDigits t' in
        match ds with
        | EmptyString => 0%Z
        | _ => if negative then (- digitsValue 0 ds)%Z else digitsValue 0 ds
        end
      else 0%Z
  | EmptyString => 0%Z
  end.

(** The text is one that JavaScript reads as an infinity: after the white
    space and an optional sign it goes on with [Infinity]. *)
Definition spellsInfinity (s : string) : bool :=
  String.prefix "Infinity" (snd (readSign (trimStart s))).

(** [parseFloat]: leading white space is skipped, then the longest prefix
    that is a [StrDecimalLiteral] is read; [None] is [NaN].  On a text with
    [spellsInfinity], whose value the model cannot hold, the result is
    [None] too: there, and only there, the model leaves JavaScript. *)
Definition parseFloat (s : string) : option Q :=
  let '(negative, s1) := readSign (trimStart s) in
  let '(intDigits, s2) := spanDigits s1 in
  let '(fracDigits, s3) :=
    match s2 with
    | String "."%char t => spanDigits t
    | _ => (EmptyString, s2)
    end in
  match intDigits, fracDigits with
  | EmptyString, EmptyString => None
  | _, _ =>
      let mantissa :=
        inject_Z (digitsValue 0 intDigits) +
        inject_Z (digitsValue 0 fracDigits) /
        inject_Z (10 ^ Z.of_nat (String.length fracDigits)) in
      let magnitude := mantissa * 10 ^ readExponent s3 in
      Some (if negative then - magnitude else magnitude)
  end.

(** [parseFloat(value.replace(/,/g, '')) || 0] *)
Definition parseNumber (value : string) : Q :=
  match parseFloat (removeCommas value) with
  | Some v => orZero v
  | None => 0
  end.

(** [s.split('.')]: never empty. *)
Fixpoint splitDot (s : string) : list string :=
  match s with
  | EmptyString => [EmptyString]
  | String c t =>
      if Ascii.eqb c "."%char then EmptyString :: splitDot t
      else
        match splitDot t with
        | h :: r => String c h :: r
        | [] => [String c EmptyString]
        end
  end.

(** [integerPart.replace(/\B(?=(\d{3})+(?!\d))/g, ',')] on a string of
    digits: a comma goes in front of every group of three digits counted
    from the end, except at the very start. *)
Fixpoint groupThousands (s : string) : string :=
  match s with
  | EmptyString => EmptyString
  | String c t =>
      let n := String.length t in
      if ((0 <? n) && (n mod 3 =? 0))%nat
      then String c (String ","%char (groupThousands t))
      else String c (groupThousands t)
  end.

Definition formatNumber (value : string) : string :=
  let numericValue :=
    filterChars (fun c => isDigit c || Ascii.eqb c "."%char) value in
  let parts := splitDot numericValue in
  let integerPart := nth 0 parts EmptyString in
  let decimalPart := nth_error parts 1 in
  let formattedInteger := groupThousands integerPart in
  match decimalPart with
  | Some (String c t) => (formattedInteger ++ "." ++ String c t)%string
  | _ => formattedInteger
  end.

(** ** Deduction and rebate records

    [Record<string, number>]: the entries in insertion order, which is the
    order in which [Object.values] lists them (no key of the component is
    an array index). *)
Definition NumberRecord : Set := list (string * Q).

(** [{ ...prev, [id]: v }]: an existing key keeps its place and takes the
    new value, a new key goes to the end. *)
Fixpoint setEntry (key : string) (v : Q) (prev : NumberRecord) : NumberRecord :=
  match prev with
  | [] => [(key, v)]
  | (k, w) :: rest =>
      if String.eqb k key then (k, v) :: rest
      else (k, w) :: setEntry key v rest
  end.

Fixpoint getEntry (key : string) (r : NumberRecord) : option Q :=
  match r with
  | [] => None
  | (k, w) :: rest => if String.eqb k key then Some w else getEntry key rest
  end.

(** [Object.values(r)] *)
Definition values (r : NumberRecord) : list Q := List.map snd r.

Definition availableDeductions : list Deduction :=
  [ mkDeduction "personal" "Individual and Dependent Relatives" 9000 (Some 9000);
    mkDeduction "medical" "Special Medical Treatment for Self/Spouse/Child" 8000 None;
    mkDeduction "disabled_support" "Basic Supporting Equipment" 6000 None;
    mkDeduction "disabled_individual" "Disabled Individual" 6000 None;
    mkDeduction "education" "Education Fees (Self)" 7000 None;
    mkDeduction "medical_serious" "Medical Treatment for Serious Diseases" 10000 None;
    mkDeduction "lifestyle" "Lifestyle - Purchase of Books/Computers/Sports Equipment/Internet" 2500 None;
    mkDeduction "lifestyle_additional" "Lifestyle - Additional Relief for Sports/Travel" 500 None;
    mkDeduction "breastfeeding" "Breastfeeding Equipment" 1000 None;
    mkDeduction "childcare" "Child Care Centre and Kindergarten Fees" 3000 None;
    mkDeduction "sspn" "Net Savings in SSPN" 8000 None;
    mkDeduction "alimony" "Alimony Payment to Former Wife" 4000 None;
    mkDeduction "spouse" "Spouse/Former Wife" 5000 None;
    mkDeduction "child" "Child" 2000 None;
    mkDeduction "life_insurance" "Life Insurance and KWSP" 7000 None;
    mkDeduction "deferred_annuity" "Private Retirement Scheme and Deferred Annuity" 3000 None;
    mkDeduction "education_insurance" "Education and Medical Insurance" 3000 None;
    mkDeduction "socso" "Social Security Protection (PERKESO)" 350 None;
    mkDeduction "accommodation" "Accommodation Benefit" 1000 None;
    mkDeduction "ev" "Electric Vehicle Charging Equipment" 2500 None ].

(** The mount effect: every deduction with a truthy [defaultAmount] starts
    at that amount. *)
Definition defaultDeductions : NumberRecord :=
  fold_left
    (fun acc deduction =>
       match defaultAmount deduction with
       | Some d => if truthy d then setEntry (id deduction) d acc else acc
       | None => acc
       end)
    availableDeductions [].

(** [availableDeductions.find(d => d.id === id)] *)
Definition findDeduction (key : string) : option Deduction :=
  find (fun d => String.eqb (id d) key) availableDeductions.

(** The cap of [handleDeductionChange]:
    [Math.min(numericValue, deduction.maxAmount)]. *)
Definition capDeduction (deduction : Deduction) (numericValue : Q) : Q :=
  Qmin numericValue (maxAmount deduction).

(** [handleDeductionChange], as the update it applies to the [deductions]
    state; an unknown id leaves the state alone. *)
Definition handleDeductionChange (key value : string)
    (prev : NumberRecord) : NumberRecord :=
  match findDeduction key with
  | None => prev
  | Some deduction =>
      let numericValue := parseNumber value in
      let cappedValue := capDeduction deduction numericValue in
      setEntry key cappedValue prev
  end.

(** [handleRebateChange], as the update it applies to the [rebates] state. *)
Definition handleRebateChange (key value : string)
    (prev : NumberRecord) : NumberRecord :=
  let numericValue := parseNumber value in
  setEntry key numericValue prev.

(** ** The lookup revision: tables *)

Module FixedAmount.

Definition taxBrackets : list TaxBracket :=
  [ mkBracket 0 (Some 5000) 0;
    mkBracket 5001 (Some 20000) 1;
    mkBracket 20001 (Some 35000) 3;
    mkBracket 35001 (Some 50000) 6;
    mkBracket 50001 (Some 70000) 11;
    mkBracket 70001 (Some 100000) 19;
    mkBracket 100001 (Some 400000) 25;
    mkBracket 400001 (Some 600000) 26;
    mkBracket 600001 (Some 2000000) 28;
    mkBracket 2000001 None 30 ].

Definition taxRanges : list TaxRange :=
  [ mkRange 0 (Some 5000) 0;
    mkRange 5001 (Some 20000) 0;
    mkRange 20001 (Some 35000) 150;
    mkRange 35001 (Some 50000) 600;
    mkRange 50001 (Some 70000) 1500;
    mkRange 70001 (Some 100000) 3700;
    mkRange 100001 (Some 400000) 9400;
    mkRange 400001 (Some 600000) 84400;
    mkRange 600001 (Some 2000000) 136400;
    mkRange 2000001 None 528400 ].

Definition calculateTax (income : Q) : Q :=
  calculateTaxLookup taxRanges taxBrackets income.

(** The input state of the component ([useState]); the display toggles are
    left out. *)
Record AppState : Set := mkState {
  annualIncome : string;
  epfAmount : string;
  socsoAmount : string;
  deductions : NumberRecord;
  rebates : NumberRecord
}.

(** The derived state, set by the summary effect. *)
Record CalculationResult : Set := mkResult {
  totalDeductions : Q;
  taxableIncome : Q;
  taxAmount : Q;
  effectiveRate : Q
}.

Definition calculateSocso (socsoAmount : string) : Q :=
  let socsoValue := parseNumber socsoAmount in
  socsoValue.

(** The summary effect once its three text inputs are parsed. *)
Definition computeSummary (income epfDeduction socsoDeduction : Q)
    (deductions rebates : NumberRecord) : CalculationResult :=
  let reliefDeductions :=
    fold_left (fun sum value => sum + orZero value) (values deductions) 0 in
  let totalDeductionsAmount :=
    epfDeduction + socsoDeduction + reliefDeductions in
  let calculatedTaxableIncome := Qmax 0 (income - totalDeductionsAmount) in
  let calculatedTax := calculateTax calculatedTaxableIncome in
  let totalRebates :=
    fold_left (fun sum value => sum + value) (values rebates) 0 in
  let finalTax := Qmax 0 (calculatedTax - totalRebates) in
  mkResult totalDeductionsAmount calculatedTaxableIncome finalTax
    (if gtb income 0 then (finalTax / income) * 100 else 0).

(** The summary effect, run after every change of the input state. *)
Definition summaryEffect (st : AppState) : CalculationResult :=
  let income := parseNumber (annualIncome st) in
  let epfDeduction := parseNumber (epfAmount st) in
  let socsoDeduction := calculateSocso (socsoAmount st) in
  computeSummary income epfDeduction socsoDeduction
    (deductions st) (rebates st).

(** The state as [useState] declares it, and after the mount effect. *)
Definition initialState : AppState :=
  mkState "" "" "" []
    [("individual"%string, 0); ("spouse"%string, 0); ("zakat"%string, 0)].

Definition mountedState : AppState :=
  mkState (annualIncome initialState) (epfAmount initialState)
    (socsoAmount initialState) defaultDeductions (rebates initialState).

(** What the user can do to the input state: type into one of the fields. *)
Inductive Edit : Set :=
| IncomeEdit (value : string)
| EpfEdit (value : string)
| SocsoEdit (value : string)
| DeductionEdit (key value : string)
| RebateEdit (key value : string).

Definition step (st : AppState) (e : Edit) : AppState :=
  match e with
  | IncomeEdit value =>
      mkState (formatNumber value) (epfAmount st) (socsoAmount st)
        (deductions st) (rebates st)
  | EpfEdit value =>
      mkState (annualIncome st) (formatNumber value) (socsoAmount st)
        (deductions st) (rebates st)
  | SocsoEdit value =>
      mkState (annualIncome st) (epfAmount st) (formatNumber value)
        (deductions st) (rebates st)
  | DeductionEdit key value =>
      mkState (annualIncome st) (epfAmount st) (socsoAmount st)
        (handleDeductionChange key value (deductions st)) (rebates st)
  | RebateEdit key value =>
      mkState (annualIncome st) (epfAmount st) (socsoAmount st)
        (deductions st) (handleRebateChange key value (rebates st))
  end.

Definition run (edits : list Edit) : AppState :=
  fold_left step edits mountedState.

End FixedAmount.

(** ** The loop revision: table *)

Module BracketWalk.

Definition taxBrackets : list TaxBracket :=
  [ mkBracket 0 (Some 5000) 0;
    mkBracket 5001 (Some 20000) 1;
    mkBracket 20001 (Some 35000) 3;
    mkBracket 35001 (Some 50000) 8;
    mkBracket 50001 (Some 70000) 13;
    mkBracket 70001 (Some 100000) 21;
    mkBracket 100001 (Some 250000) 24;
    mkBracket 250001 (Some 400000) 24.5;
    mkBracket 400001 (Some 600000) 25;
    mkBracket 600001 (Some 1000000) 26;
    mkBracket 1000001 None 28 ].

Definition calculateTax (income : Q) : Q :=
  calculateTaxWalk taxBrackets income.

End BracketWalk.


(** ** The loop revision: contributions and summary

    The form of the loop revision ([src/App.tsx]): EPF and SOCSO are two
    check boxes, the contributions are computed from the income. *)

Module LoopRevision.

Record AppState : Set := mkState {
  annualIncome : string;
  epf : bool;
  socso : bool;
  deductions : NumberRecord;
  rebates : NumberRecord
}.

Record CalculationResult : Set := mkResult {
  totalDeductions : Q;
  taxableIncome : Q;
  taxAmount : Q;
  effectiveRate : Q
}.

(** [calculateSocso]; the [socso] flag is the state it closes over. *)
Definition calculateSocso (socso : bool) (monthlyIncome : Q) : Q :=
  if negb socso then 0
  else
    let annualRate := if leb monthlyIncome 5000 then 0.005 else 0.006 in
    monthlyIncome * 12 * annualRate.

(** The summary effect once the income text is parsed. *)
Definition computeSummary (income : Q) (epf socso : bool)
    (deductions rebates : NumberRecord) : CalculationResult :=
  let monthlyIncome := income / 12 in
  let epfDeduction := if epf then income * 0.11 else 0 in
  let socsoDeduction := calculateSocso socso monthlyIncome in
  let reliefDeductions :=
    fold_left (fun sum value => sum + orZero value) (values deductions) 0 in
  let totalDeductionsAmount :=
    epfDeduction + socsoDeduction + reliefDeductions in
  let calculatedTaxableIncome := Qmax 0 (income - totalDeductionsAmount) in
  let calculatedTax := BracketWalk.calculateTax calculatedTaxableIncome in
  let totalRebates :=
    fold_left (fun sum value => sum + value) (values rebates) 0 in
  let finalTax := Qmax 0 (calculatedTax - totalRebates) in
  mkResult totalDeductionsAmount calculatedTaxableIncome finalTax
    (if gtb income 0 then (finalTax / income) * 100 else 0).

Definition summaryEffect (st : AppState) : CalculationResult :=
  let income := parseNumber (annualIncome st) in
  computeSummary income (epf st) (socso st) (deductions st) (rebates st).

Definition initialState : AppState :=
  mkState "" true true []
    [("individual"%string, 0); ("spouse"%string, 0); ("zakat"%string, 0)].

Definition mountedState : AppState :=
  mkState (annualIncome initialState) (epf initialState)
    (socso initialState) defaultDeductions (rebates initialState).

Inductive Edit : Set :=
| IncomeEdit (value : string)
| EpfCheck (checked : bool)
| SocsoCheck (checked : bool)
| DeductionEdit (key value : string)
| RebateEdit (key value : string).

Definition step (st : AppState) (e : Edit) : AppState :=
  match e with
  | IncomeEdit value =>
      mkState (formatNumber value) (epf st) (socso st)
        (deductions st) (rebates st)
  | EpfCheck checked =>
      mkState (annualIncome st) checked (socso st)
        (deductions st) (rebates st)
  | SocsoCheck checked =>
      mkState (annualIncome st) (epf st) checked
        (deductions st) (rebates st)
  | DeductionEdit key value =>
      mkState (annualIncome st) (epf st) (socso st)
        (handleDeductionChange key value (deductions st)) (rebates st)
  | RebateEdit key value =>
      mkState (annualIncome st) (epf st) (socso st)
        (deductions st) (handleRebateChange key value (rebates st))
  end.

Definition run (edits : list Edit) : AppState :=
  fold_left step edits mountedState.

End LoopRevision.

(** * Vocabulary of the statements *)

(** What the walk needs of a bracket: a rate that is not negative and, when
    the bracket is bounded, a width that is not negative. *)
Definition wellFormedBracket (b : TaxBracket) : Prop :=
  0 <= rate b /\
  match max b with Some m => 0 <= m - min b + 1 | None => True end.

(** The holes of a range table: for each range but the last, the pair of its
    upper bound and the lower bound of the range after it. *)
Fixpoint gapsOf (ranges : list TaxRange) : list (Q * Q) :=
  match ranges with
  | r1 :: (r2 :: _) as rest =>
      match next r1 with
      | Some n => (n, start r2) :: gapsOf rest
      | None => gapsOf rest
      end
  | _ => []
  end.

(** The sum of a list of amounts, written without the accumulator of
    [reduce]. *)
Definition sumOf (l : list Q) : Q := fold_right Qplus 0 l.

(** The amounts stored in a record are none of them negative. *)
Definition nonNegativeEntries (r : NumberRecord) : Prop :=
  Forall (fun entry => 0 <= snd entry) r.

(** Every character of a string passes a test. *)
Fixpoint allChars (p : ascii -> bool) (s : string) : bool :=
  match s with
  | EmptyString => true
  | String c t => p c && allChars p t
  end.

Definition notMinus (c : ascii) : bool := negb (Ascii.eqb c "-"%char).

(** An entry of the deductions record belongs to a deduction of the
    catalogue and does not exceed its cap. *)
Definition withinCap (entry : string * Q) : Prop :=
  exists d, findDeduction (fst entry) = Some d /\ snd entry <= maxAmount d.

(** The keys of a record, in order. *)
Definition keys (r : NumberRecord) : list string := List.map fst r.

(** The characters [formatNumber] lets through or puts in. *)
Definition isNumericChar (c : ascii) : bool :=
  isDigit c || Ascii.eqb c "."%char.

Definition isFormatChar (c : ascii) : bool :=
  isDigit c || Ascii.eqb c "."%char || Ascii.eqb c ","%char.

Definition notDot (c : ascii) : bool := negb (Ascii.eqb c "."%char).

(** The cap of a key in the catalogue, 0 for a key that is not in it. *)
Definition capOf (key : string) : Q :=
  match findDeduction key with
  | Some d => maxAmount d
  | None => 0
  end.

(** The first character of a string passes a test. *)
Definition headIs (p : ascii -> bool) (s : string) : bool :=
  match s with
  | String c _ => p c
  | EmptyString => false
  end.

(** The bytes a [StrWhiteSpaceChar] can start with. *)
Definition isSpaceLead (c : ascii) : bool :=
  let n := nat_of_ascii c in
  (isWhiteSpace c
   || (n =? 194) || (n =? 225) || (n =? 226) || (n =? 227) || (n =? 239))%nat.

Definition isSign (c : ascii) : bool :=
  Ascii.eqb c "-"%char || Ascii.eqb c "+"%char.

Definition notDigit (c : ascii) : bool := negb (isDigit c).

(** The parts of a split text put together again, a dot in front of each. *)
Fixpoint joinDot (parts : list string) : string :=
  match parts with
  | [] => EmptyString
  | part :: rest => String "."%char (part ++ joinDot rest)
  end.

(** The number that an integer part and a decimal part, both digit strings,
    spell. *)
Definition decimalValue (intDigits fracDigits : string) : Q :=
  inject_Z (digitsValue 0 intDigits) +
  inject_Z (digitsValue 0 fracDigits) /
  inject_Z (10 ^ Z.of_nat (String.length fracDigits)).

(** * Properties *)

(** ** Numbers *)

Lemma leb_le (a b : Q) : leb a b = true -> a <= b.
Proof. apply Qle_bool_imp_le. Qed.

Lemma leb_gt (a b : Q) : leb a b = false -> b < a.
Proof.
  unfold leb; intros H. apply Qnot_le_lt; intros Hle.
  apply Qle_bool_iff in Hle. congruence.
Qed.

Lemma le_leb (a b : Q) : a <= b -> leb a b = true.
Proof. apply Qle_bool_iff. Qed.

Lemma gt_leb (a b : Q) : b < a -> leb a b = false.
Proof.
  intros H. destruct (leb a b) eqn:E; [|reflexivity].
  apply leb_le in E. lra.
Qed.

Lemma gtb_lt (a b : Q) : gtb a b = true -> b < a.
Proof.
  unfold gtb; intros H. apply leb_gt. unfold leb.
  now destruct (Qle_bool a b).
Qed.

Lemma orZero_eq (v : Q) : orZero v == v.
Proof.
  unfold orZero, truthy. destruct (Qeq_bool v 0) eqn:E; simpl.
  - apply Qeq_bool_eq in E. now rewrite E.
  - reflexivity.
Qed.

Lemma percent (a : Q) : a / 100 == a * (1 # 100).
Proof. reflexivity. Qed.

(** Splits on every comparison and every [Qmin] / [Qmax] of the goal, keeping
    the facts as hypotheses for [lra]. *)
Ltac split_leb :=
  match goal with
  | |- context [leb ?a ?b] =>
      let E := fresh "E" in
      destruct (leb a b) eqn:E;
      [apply leb_le in E | apply leb_gt in E]
  end.

Ltac note_minmax :=
  repeat match goal with
  | |- context [Qmin ?a ?b] =>
      lazymatch goal with
      | _ : Qmin a b == _ |- _ => fail
      | _ => destruct (Q.min_spec a b) as [[? ?] | [? ?]]
      end
  | |- context [Qmax ?a ?b] =>
      lazymatch goal with
      | _ : Qmax a b == _ |- _ => fail
      | _ => destruct (Q.max_spec a b) as [[? ?] | [? ?]]
      end
  end.

(** ** The bracket walk on a well-formed table *)

Lemma taxableAmountOf_bounds (b : TaxBracket) (r : Q) :
  wellFormedBracket b -> 0 < r ->
  0 <= taxableAmountOf b r /\ taxableAmountOf b r <= r.
Proof.
  intros [_ Hw] Hr. unfold taxableAmountOf. revert Hw.
  destruct (max b) as [m|]; [destruct (truthy m)|]; intros Hw; try lra.
  note_minmax; lra.
Qed.

Lemma taxableAmountOf_monotone (b : TaxBracket) (r1 r2 : Q) :
  r1 <= r2 ->
  taxableAmountOf b r1 <= taxableAmountOf b r2 /\
  r1 - taxableAmountOf b r1 <= r2 - taxableAmountOf b r2.
Proof.
  intros Hr. unfold taxableAmountOf.
  destruct (max b) as [m|]; [destruct (truthy m)|]; try lra.
  note_minmax; lra.
Qed.

Lemma walkBrackets_ge_acc (bs : list TaxBracket) :
  Forall wellFormedBracket bs ->
  forall acc r, acc <= walkBrackets bs acc r.
Proof.
  induction 1 as [|b bs Hb _ IH]; intros acc r; simpl.
  - lra.
  - split_leb; [lra|].
    destruct (taxableAmountOf_bounds b r Hb E) as [Ht _].
    assert (0 <= taxableAmountOf b r * rate b)
      by (apply Qmult_le_0_compat; [assumption | apply Hb]).
    eapply Qle_trans; [|apply IH]. rewrite percent. lra.
Qed.

Lemma walkBrackets_monotone (bs : list TaxBracket) :
  Forall wellFormedBracket bs ->
  forall acc1 acc2 r1 r2, acc1 <= acc2 -> r1 <= r2 ->
  walkBrackets bs acc1 r1 <= walkBrackets bs acc2 r2.
Proof.
  induction 1 as [|b bs Hb Hbs IH]; intros acc1 acc2 r1 r2 Hacc Hr; simpl.
  - assumption.
  - destruct (leb r1 0) eqn:E1; [apply leb_le in E1 | apply leb_gt in E1];
    (destruct (leb r2 0) eqn:E2; [apply leb_le in E2 | apply leb_gt in E2]);
    try lra.
    + destruct (taxableAmountOf_bounds b r2 Hb E2) as [Ht _].
      assert (0 <= taxableAmountOf b r2 * rate b)
        by (apply Qmult_le_0_compat; [assumption | apply Hb]).
      eapply Qle_trans; [|apply walkBrackets_ge_acc; assumption].
      rewrite percent. lra.
    + destruct (taxableAmountOf_monotone b r1 r2 Hr) as [Ht Hrest].
      apply IH; [|assumption].
      assert (taxableAmountOf b r1 * rate b <= taxableAmountOf b r2 * rate b)
        by (apply Qmult_le_compat_r; [assumption | apply Hb]).
      rewrite !percent. lra.
Qed.

Lemma wellFormed_tables :
  Forall wellFormedBracket FixedAmount.taxBrackets /\
  Forall wellFormedBracket BracketWalk.taxBrackets.
Proof.
  split; repeat constructor; simpl; try lra; try discriminate.
Qed.

(** The loop revision never taxes a larger income less. *)
Lemma calculateTax_walk_monotone (x y : Q) :
  x <= y -> BracketWalk.calculateTax x <= BracketWalk.calculateTax y.
Proof.
  intros Hxy. apply walkBrackets_monotone;
    [apply wellFormed_tables | lra | assumption].
Qed.

Lemma walkBrackets_done (bs : list TaxBracket) (acc r : Q) :
  r <= 0 -> walkBrackets bs acc r = acc.
Proof.
  intros Hr. destruct bs as [|b bs]; simpl; [reflexivity|].
  now rewrite (le_leb _ _ Hr).
Qed.

(** ** The lookup on tables without negative entries *)

Lemma inRange_bounds (x : Q) (r : TaxRange) :
  inRange x r = true ->
  start r <= x /\ match next r with Some n => x <= n | None => True end.
Proof.
  unfold inRange. intros H. apply andb_prop in H as [H1 H2].
  split; [now apply leb_le|].
  destruct (next r); [now apply leb_le | exact I].
Qed.

Lemma calculateTaxLookup_nonneg (ranges : list TaxRange)
    (brackets : list TaxBracket) (x : Q) :
  Forall (fun r => 0 <= fixedAmount r) ranges ->
  Forall (fun b => 0 <= rate b) brackets ->
  0 <= calculateTaxLookup ranges brackets x.
Proof.
  intros Hranges Hbrackets. unfold calculateTaxLookup.
  destruct (leb x 0); [lra|].
  destruct (find (inRange x) ranges) as [r|] eqn:Er; [|lra].
  destruct (find (inBracket x) brackets) as [b|] eqn:Eb; [|lra].
  destruct (leb x 5000); [lra|].
  apply find_some in Er as [Hr Hin], Eb as [Hb _].
  apply inRange_bounds in Hin as [Hstart _].
  rewrite Forall_forall in Hranges, Hbrackets.
  specialize (Hranges r Hr). specialize (Hbrackets b Hb). simpl in *.
  assert (0 <= (x - start r) * rate b)
    by (apply Qmult_le_0_compat; lra).
  rewrite percent. lra.
Qed.

(** C10.  Both revisions of [calculateTax] are total functions (they are
    defined by recursion over the bracket table, for every number) whose
    result is never negative; on an income that is zero or negative each
    returns 0 by itself: the lookup by its first guard, the loop because it
    is left before the first bracket is taxed. *)
Theorem calculateTax_nonneg_and_zero_below (income : Q) :
  0 <= FixedAmount.calculateTax income /\
  0 <= BracketWalk.calculateTax income /\
  (income <= 0 ->
   FixedAmount.calculateTax income == 0 /\
   BracketWalk.calculateTax income == 0).
Proof.
  split; [|split].
  - apply calculateTaxLookup_nonneg; repeat constructor; simpl; lra.
  - eapply Qle_trans; [|apply walkBrackets_ge_acc, wellFormed_tables]. lra.
  - intros Hle. split.
    + unfold FixedAmount.calculateTax, calculateTaxLookup.
      rewrite (le_leb _ _ Hle). reflexivity.
    + unfold BracketWalk.calculateTax, calculateTaxWalk.
      rewrite walkBrackets_done by assumption. reflexivity.
Qed.

Lemma calculateTax_nonneg_and_zero_below_witness :
  - (2500) <= 0 /\
  FixedAmount.calculateTax (- (2500)) == 0 /\
  BracketWalk.calculateTax (- (2500)) == 0.
Proof.
  split.
  - lra.
  - apply (calculateTax_nonneg_and_zero_below (- (2500))). lra.
Defined.

(** ** Evaluating the lookup on an income of known position *)

Ltac decide_leb :=
  repeat match goal with
  | |- context [leb ?a ?b] =>
      first [ rewrite (le_leb a b) by lra | rewrite (gt_leb a b) by lra ]
  end.

Ltac lookup_eval :=
  unfold FixedAmount.calculateTax, calculateTaxLookup,
    FixedAmount.taxRanges, FixedAmount.taxBrackets;
  cbn [find]; unfold inRange, inBracket;
  cbn [start next fixedAmount min max rate];
  decide_leb;
  cbn [andb start next fixedAmount min max rate].

Ltac eval_Q := vm_compute; first [reflexivity | discriminate | congruence].

(** C8.  In the lookup revision an income strictly inside a hole of the
    range table (above one range's upper bound, below the next range's lower
    bound) matches no range, and [calculateTax] returns 0 for it, although
    the income one unit larger is taxed and, from the second hole on, so is
    the income at the lower edge of the hole. *)
Theorem calculateTax_zero_in_gaps (lo hi income : Q) :
  In (lo, hi) (gapsOf FixedAmount.taxRanges) ->
  lo < income -> income < hi ->
  find (inRange income) FixedAmount.taxRanges = None /\
  FixedAmount.calculateTax income = 0 /\
  0 < FixedAmount.calculateTax (income + 1) /\
  (5000 < lo -> 0 < FixedAmount.calculateTax lo).
Proof.
  intros Hgap Hlo Hhi. simpl in Hgap.
  repeat (destruct Hgap as [Hgap | Hgap];
          [injection Hgap as <- <- | ]); try contradiction.
  all: split; [ lookup_eval; reflexivity
              | split; [ lookup_eval; reflexivity | split ] ].
  all: try (lookup_eval; rewrite ?percent; lra).
  all: intros _; try lra; eval_Q.
Qed.

Lemma calculateTax_zero_in_gaps_witness :
  In (20000, 20001) (gapsOf FixedAmount.taxRanges) /\
  20000 < 20000.5 /\ 20000.5 < 20001 /\
  find (inRange 20000.5) FixedAmount.taxRanges = None /\
  FixedAmount.calculateTax 20000.5 = 0 /\
  0 < FixedAmount.calculateTax (20000.5 + 1) /\
  (5000 < 20000 -> 0 < FixedAmount.calculateTax 20000).
Proof.
  assert (Hin : In (20000, 20001) (gapsOf FixedAmount.taxRanges))
    by (simpl; right; left; reflexivity).
  assert (Hlo : 20000 < 20000.5) by reflexivity.
  assert (Hhi : 20000.5 < 20001) by reflexivity.
  split; [exact Hin|]. split; [exact Hlo|]. split; [exact Hhi|].
  exact (calculateTax_zero_in_gaps 20000 20001 20000.5 Hin Hlo Hhi).
Defined.

(** The income of the example, 5000.5, in the first hole. *)
Example calculateTax_5000_5 :
  find (inRange 5000.5) FixedAmount.taxRanges = None /\
  FixedAmount.calculateTax 5000.5 = 0.
Proof. split; reflexivity. Qed.

(** ** The unit of income at a bracket boundary *)

(** C5, as stated, fails: going from the upper bound 20,000 of the 1%
    bracket to 20,001 adds 0.01 (the rate of the bracket that ends there),
    not the 0.03 of the bracket that starts there. *)
Lemma boundary_unit_next_rate_counterexample :
  ~ (forall i b b' ub,
        nth_error FixedAmount.taxBrackets i = Some b ->
        nth_error FixedAmount.taxBrackets (S i) = Some b' ->
        max b = Some ub ->
        FixedAmount.calculateTax ub + (rate b' * 1) / 100
        == FixedAmount.calculateTax (ub + 1)).
Proof.
  intros H.
  specialize (H 1%nat _ _ _ eq_refl eq_refl eq_refl).
  vm_compute in H. discriminate H.
Qed.

(** C5, amended.  In both revisions, for every bounded bracket, the tax on
    the upper bound plus the rate of that same bracket applied to one more
    unit is the tax on the upper bound plus one: the unit that leads to the
    next bracket's lower bound is taxed once, at the rate of the lower
    bracket. *)
Theorem boundary_unit_taxed_at_lower_rate (b : TaxBracket) (ub : Q) :
  max b = Some ub ->
  (In b FixedAmount.taxBrackets ->
   FixedAmount.calculateTax ub + (rate b * 1) / 100
   == FixedAmount.calculateTax (ub + 1)) /\
  (In b BracketWalk.taxBrackets ->
   BracketWalk.calculateTax ub + (rate b * 1) / 100
   == BracketWalk.calculateTax (ub + 1)).
Proof.
  intros Hmax. split; intros Hin; simpl in Hin;
  repeat (destruct Hin as [Hin | Hin];
          [subst b; try discriminate Hmax;
           injection Hmax as <-; eval_Q | ]);
  contradiction.
Qed.

Lemma boundary_unit_taxed_at_lower_rate_witness :
  FixedAmount.calculateTax 20000 + (1 * 1) / 100
  == FixedAmount.calculateTax (20000 + 1) /\
  BracketWalk.calculateTax 20000 + (1 * 1) / 100
  == BracketWalk.calculateTax (20000 + 1).
Proof.
  pose proof (boundary_unit_taxed_at_lower_rate
                (mkBracket 5001 (Some 20000) 1) 20000 eq_refl) as [H1 H2].
  split.
  - apply H1. simpl. right; left; reflexivity.
  - apply H2. simpl. right; left; reflexivity.
Defined.

(** ** The two formulations on one table *)

Lemma taxableAmountOf_compat (b : TaxBracket) (r r' : Q) :
  r == r' -> taxableAmountOf b r == taxableAmountOf b r'.
Proof.
  intros Hr. unfold taxableAmountOf.
  destruct (max b) as [m|]; [destruct (truthy m)|]; try assumption.
  now rewrite Hr.
Qed.

Lemma walkBrackets_compat (bs : list TaxBracket) :
  forall acc acc' r r', acc == acc' -> r == r' ->
  walkBrackets bs acc r == walkBrackets bs acc' r'.
Proof.
  induction bs as [|b bs IH]; intros acc acc' r r' Hacc Hr; simpl.
  - assumption.
  - assert (Hleb : leb r 0 = leb r' 0)
      by (apply Qleb_comp; [assumption | reflexivity]).
    rewrite <- Hleb. destruct (leb r 0); [assumption|].
    pose proof (taxableAmountOf_compat b r r' Hr) as Ht.
    apply IH; [rewrite Ht, Hacc | rewrite Ht, Hr]; reflexivity.
Qed.

(** A bounded bracket that the remaining income fills: its whole width is
    taxed and the walk goes on. *)
Lemma walk_through (lo m rt : Q) (rest : list TaxBracket) (acc r : Q) :
  truthy m = true -> 0 < r -> m - lo + 1 <= r ->
  walkBrackets (mkBracket lo (Some m) rt :: rest) acc r
  == walkBrackets rest (acc + ((m - lo + 1) * rt) / 100) (r - (m - lo + 1)).
Proof.
  intros Hm Hr Hw. simpl. rewrite (gt_leb _ _ Hr).
  unfold taxableAmountOf; simpl. rewrite Hm.
  assert (Hmin : Qmin r (m - lo + 1) == m - lo + 1) by (apply Q.min_r; lra).
  apply walkBrackets_compat; rewrite Hmin; reflexivity.
Qed.

(** A bounded bracket that the remaining income does not overflow: the walk
    ends there. *)
Lemma walk_last (lo m rt : Q) (rest : list TaxBracket) (acc r : Q) :
  truthy m = true -> 0 <= r -> r <= m - lo + 1 ->
  walkBrackets (mkBracket lo (Some m) rt :: rest) acc r
  == acc + (r * rt) / 100.
Proof.
  intros Hm Hr Hw. simpl. destruct (leb r 0) eqn:E.
  - apply leb_le in E. assert (Hz : r == 0) by lra. rewrite Hz, percent. lra.
  - unfold taxableAmountOf; simpl. rewrite Hm.
    assert (Hmin : Qmin r (m - lo + 1) == r) by (apply Q.min_l; lra).
    rewrite walkBrackets_done by lra. now rewrite Hmin.
Qed.

(** The unbounded bracket takes whatever remains. *)
Lemma walk_last_open (lo rt : Q) (rest : list TaxBracket) (acc r : Q) :
  0 <= r ->
  walkBrackets (mkBracket lo None rt :: rest) acc r == acc + (r * rt) / 100.
Proof.
  intros Hr. simpl. destruct (leb r 0) eqn:E.
  - apply leb_le in E. assert (Hz : r == 0) by lra. rewrite Hz, percent. lra.
  - unfold taxableAmountOf; simpl. rewrite walkBrackets_done by lra.
    reflexivity.
Qed.

Ltac walk_eval :=
  unfold BracketWalk.calculateTax, calculateTaxWalk,
    BracketWalk.taxBrackets, FixedAmount.taxBrackets;
  repeat (rewrite walk_through by (try reflexivity; lra));
  first [ rewrite walk_last by (try reflexivity; lra)
        | rewrite walk_last_open by lra ].

(** C1, as stated, fails: at 40,000 the loop of the one revision gives
    999.92 and the lookup of the other 899.94, their rate schedules being
    different from the fourth bracket on. *)
Lemma calculateTax_revisions_differ_counterexample :
  0 <= 40000 /\
  BracketWalk.calculateTax 40000 == 999.92 /\
  FixedAmount.calculateTax 40000 == 899.94 /\
  ~ BracketWalk.calculateTax 40000 == FixedAmount.calculateTax 40000.
Proof.
  split; [discriminate|]. split; [reflexivity|]. split; [reflexivity|].
  intros H. vm_compute in H. discriminate H.
Qed.

(** Above 35,001 the two revisions, each on its own table, part (600.08
    against 600.06 at 35,002) but are not apart everywhere: at 230,001 both
    give 41,900. *)
Example calculateTax_revisions_above_35001 :
  BracketWalk.calculateTax 35002 == 600.08 /\
  FixedAmount.calculateTax 35002 == 600.06 /\
  BracketWalk.calculateTax 230001 == 41900 /\
  FixedAmount.calculateTax 230001 == 41900.
Proof. repeat match goal with |- _ /\ _ => split end; eval_Q. Qed.

(** On the table of the lookup revision, walk and lookup agree on every
    income inside a range. *)
Lemma walk_lookup_same_table (income : Q) (r : TaxRange) :
  In r FixedAmount.taxRanges -> inRange income r = true ->
  calculateTaxWalk FixedAmount.taxBrackets income
  == FixedAmount.calculateTax income.
Proof.
  intros Hin Hr. apply inRange_bounds in Hr as [Hlo Hhi].
  simpl in Hin.
  repeat (destruct Hin as [Hin | Hin]; [subst r; simpl in Hlo, Hhi | ]);
    try contradiction.
  1: { destruct (Qlt_le_dec 0 income) as [Hpos | Hneg].
       - walk_eval; lookup_eval; rewrite ?percent; lra.
       - unfold calculateTaxWalk.
         rewrite walkBrackets_done by lra; lookup_eval; reflexivity. }
  all: walk_eval; lookup_eval; rewrite ?percent; lra.
Qed.

(** Each revision on its own table: the schedules are the same up to the
    third bracket, and so are the results up to 35,001. *)
Lemma walk_lookup_own_tables (income : Q) (r : TaxRange) :
  In r FixedAmount.taxRanges -> inRange income r = true ->
  income <= 35001 ->
  BracketWalk.calculateTax income == FixedAmount.calculateTax income.
Proof.
  intros Hin Hr Hle. apply inRange_bounds in Hr as [Hlo Hhi].
  simpl in Hin.
  repeat (destruct Hin as [Hin | Hin]; [subst r; simpl in Hlo, Hhi | ]);
    try contradiction; try lra.
  1: { destruct (Qlt_le_dec 0 income) as [Hpos | Hneg].
       - walk_eval; lookup_eval; rewrite ?percent; lra.
       - unfold BracketWalk.calculateTax, calculateTaxWalk.
         rewrite walkBrackets_done by lra; lookup_eval; reflexivity. }
  all: walk_eval; lookup_eval; rewrite ?percent; lra.
Qed.

(** C1, amended.  On one and the same bracket table (the one the lookup
    revision ships) the bracket walk and the fixed-amount lookup agree on
    every income from 0 up that lies within a range of the table, so on
    every whole income; with the table that the loop revision ships they
    still agree on such incomes up to 35,001, where the schedules part. *)
Theorem walk_agrees_with_lookup (income : Q) :
  0 <= income ->
  (exists r, In r FixedAmount.taxRanges /\ inRange income r = true) ->
  calculateTaxWalk FixedAmount.taxBrackets income
  == FixedAmount.calculateTax income /\
  (income <= 35001 ->
   BracketWalk.calculateTax income == FixedAmount.calculateTax income).
Proof.
  intros _ (r & Hin & Hr). split.
  - exact (walk_lookup_same_table income r Hin Hr).
  - exact (walk_lookup_own_tables income r Hin Hr).
Qed.

Lemma walk_agrees_with_lookup_witness :
  calculateTaxWalk FixedAmount.taxBrackets 20000
  == FixedAmount.calculateTax 20000 /\
  BracketWalk.calculateTax 20000 == FixedAmount.calculateTax 20000.
Proof.
  assert (H0 : 0 <= 20000) by discriminate.
  assert (Hle : 20000 <= 35001) by discriminate.
  assert (Hr : exists r, In r FixedAmount.taxRanges /\ inRange 20000 r = true).
  { exists (mkRange 5001 (Some 20000) 0). split.
    - simpl. right; left; reflexivity.
    - reflexivity. }
  destruct (walk_agrees_with_lookup 20000 H0 Hr) as [H1 H2].
  split; [exact H1 | exact (H2 Hle)].
Defined.

Ltac try_ranges l :=
  match l with
  | ?r :: ?rest =>
      first
        [ solve [ exists r; split;
                  [ simpl; repeat (first [left; reflexivity | right])
                  | apply andb_true_intro; split; simpl;
                    try reflexivity; apply le_leb; unfold Qle; simpl; lia ] ]
        | try_ranges rest ]
  end.

(** Every whole income from 0 up lies within a range of the table. *)
Lemma whole_income_in_range (n : Z) :
  (0 <= n)%Z ->
  exists r, In r FixedAmount.taxRanges /\ inRange (inject_Z n) r = true.
Proof.
  intros Hn.
  assert (Hcase :
    (n <= 5000 \/ 5001 <= n <= 20000 \/ 20001 <= n <= 35000 \/
     35001 <= n <= 50000 \/ 50001 <= n <= 70000 \/ 70001 <= n <= 100000 \/
     100001 <= n <= 400000 \/ 400001 <= n <= 600000 \/
     600001 <= n <= 2000000 \/ 2000001 <= n)%Z) by lia.
  unfold FixedAmount.taxRanges.
  repeat (destruct Hcase as [Hcase | Hcase]; [ | ]).
  all: match goal with |- exists r, In r ?l /\ _ => try_ranges l end.
Qed.

(** ** The summary *)

Lemma fold_left_sum (l : list Q) (acc : Q) :
  fold_left (fun sum value => sum + value) l acc == acc + sumOf l.
Proof.
  revert acc. induction l as [|v l IH]; intros acc; simpl.
  - lra.
  - rewrite IH. lra.
Qed.

Lemma fold_left_sum_orZero (l : list Q) (acc : Q) :
  fold_left (fun sum value => sum + orZero value) l acc == acc + sumOf l.
Proof.
  revert acc. induction l as [|v l IH]; intros acc; simpl.
  - lra.
  - rewrite IH, orZero_eq. lra.
Qed.

Lemma sumOf_nonneg (r : NumberRecord) :
  nonNegativeEntries r -> 0 <= sumOf (values r).
Proof.
  induction 1 as [|e r He _ IH]; simpl; lra.
Qed.

(** C2.  Income 100,000 typed into a freshly mounted form: the only
    deduction is the personal one of 9,000, contributions and rebates are
    zero, and the summary is: taxable income 91,000, tax
    3700 + (91000 - 70001) * 0.19 = 7689.81, effective rate 7.68981 (7.69
    to two decimals); the tables carry the rates and fixed amounts listed. *)
Theorem summary_income_100000 :
  let st := FixedAmount.run [FixedAmount.IncomeEdit "100000"] in
  let r := FixedAmount.summaryEffect st in
  FixedAmount.deductions st = [("personal"%string, 9000)] /\
  parseNumber (FixedAmount.epfAmount st) == 0 /\
  parseNumber (FixedAmount.socsoAmount st) == 0 /\
  Forall (fun v => v == 0) (values (FixedAmount.rebates st)) /\
  parseNumber (FixedAmount.annualIncome st) == 100000 /\
  FixedAmount.totalDeductions r == 9000 /\
  FixedAmount.taxableIncome r == 91000 /\
  FixedAmount.taxAmount r == 3700 + (91000 - 70001) * 0.19 /\
  FixedAmount.taxAmount r == 7689.81 /\
  FixedAmount.effectiveRate r == 7.68981 /\
  7.685 <= FixedAmount.effectiveRate r /\
  FixedAmount.effectiveRate r < 7.695 /\
  List.map rate FixedAmount.taxBrackets
  = [0; 1; 3; 6; 11; 19; 25; 26; 28; 30] /\
  List.map fixedAmount FixedAmount.taxRanges
  = [0; 0; 150; 600; 1500; 3700; 9400; 84400; 136400; 528400].
Proof.
  cbv zeta.
  repeat match goal with |- _ /\ _ => split end;
    try (repeat constructor); eval_Q.
Qed.



(** Every taxable income from 0 up is the taxable income of some summary. *)
Lemma taxableIncome_onto (t : Q) (rebates : NumberRecord) :
  0 <= t ->
  FixedAmount.taxableIncome (FixedAmount.computeSummary t 0 0 [] rebates)
  == t.
Proof.
  intros Ht. unfold FixedAmount.computeSummary; simpl.
  rewrite Q.max_r by lra. lra.
Qed.

Lemma getEntry_setEntry (key : string) (v : Q) (r : NumberRecord) :
  getEntry key (setEntry key v r) = Some v.
Proof.
  induction r as [|[k w] r IH]; simpl.
  - now rewrite String.eqb_refl.
  - destruct (String.eqb k key) eqn:E; simpl; now rewrite E.
Qed.

(** C9.  A rebate is stored exactly as its text parses, with no floor at 0:
    typing -100 into the zakat field stores -100, and the tax payable
    (7789.81 on an income of 100,000) then exceeds the tax computed on the
    taxable income (7689.81). *)
Theorem rebate_stored_unclamped :
  (forall key value prev,
      getEntry key (handleRebateChange key value prev)
      = Some (parseNumber value)) /\
  let st := FixedAmount.run
              [FixedAmount.IncomeEdit "100000";
               FixedAmount.RebateEdit "zakat" "-100"] in
  let r := FixedAmount.summaryEffect st in
  getEntry "zakat" (FixedAmount.rebates st) = Some (parseNumber "-100") /\
  parseNumber "-100" == - (100) /\
  parseNumber "-100" < 0 /\
  FixedAmount.calculateTax (FixedAmount.taxableIncome r) == 7689.81 /\
  FixedAmount.taxAmount r == 7789.81 /\
  FixedAmount.calculateTax (FixedAmount.taxableIncome r)
  < FixedAmount.taxAmount r.
Proof.
  split.
  - intros key value prev. apply getEntry_setEntry.
  - cbv zeta. repeat match goal with |- _ /\ _ => split end; eval_Q.
Qed.

(** ** Text without a minus sign parses to a number that is not negative *)

Lemma allChars_filterChars_keep (p keep : ascii -> bool) (s : string) :
  (forall c, keep c = true -> p c = true) ->
  allChars p (filterChars keep s) = true.
Proof.
  intros Hkeep. induction s as [|c t IH]; simpl; [reflexivity|].
  destruct (keep c) eqn:E; simpl; [|assumption].
  now rewrite (Hkeep c E).
Qed.

Lemma allChars_filterChars (p keep : ascii -> bool) (s : string) :
  allChars p s = true -> allChars p (filterChars keep s) = true.
Proof.
  induction s as [|c t IH]; simpl; [reflexivity|].
  intros H. apply andb_prop in H as [Hc Ht].
  destruct (keep c); simpl; [rewrite Hc|]; auto.
Qed.

Lemma allChars_app (p : ascii -> bool) (a b : string) :
  allChars p (a ++ b) = allChars p a && allChars p b.
Proof.
  induction a as [|c t IH]; simpl; [reflexivity|].
  now rewrite IH, andb_assoc.
Qed.

Lemma allChars_groupThousands (p : ascii -> bool) (s : string) :
  p ","%char = true -> allChars p s = true ->
  allChars p (groupThousands s) = true.
Proof.
  intros Hcomma. induction s as [|c t IH]; [reflexivity|].
  cbn [allChars groupThousands].
  intros H. apply andb_prop in H as [Hc Ht].
  destruct ((0 <? String.length t) && (String.length t mod 3 =? 0))%nat;
    cbn [allChars]; rewrite Hc, ?Hcomma; simpl; auto.
Qed.

Lemma allChars_splitDot (p : ascii -> bool) (s : string) :
  allChars p s = true ->
  Forall (fun part => allChars p part = true) (splitDot s).
Proof.
  induction s as [|c t IH]; simpl; intros H.
  - repeat constructor.
  - apply andb_prop in H as [Hc Ht]. specialize (IH Ht).
    destruct (Ascii.eqb c "."%char).
    + constructor; [reflexivity | assumption].
    + destruct (splitDot t) as [|h r].
      * repeat constructor. simpl. now rewrite Hc.
      * inversion IH; subst. constructor; [|assumption].
        simpl. now rewrite Hc.
Qed.

Lemma formatNumber_notMinus (value : string) :
  allChars notMinus (formatNumber value) = true.
Proof.
  unfold formatNumber.
  set (numericValue := filterChars _ value).
  assert (Hnum : allChars notMinus numericValue = true).
  { apply allChars_filterChars_keep. intros c Hc.
    unfold notMinus. destruct (Ascii.eqb_spec c "-"%char); [|reflexivity].
    subst c. discriminate Hc. }
  apply allChars_splitDot in Hnum.
  destruct (splitDot numericValue) as [|integerPart rest]; [reflexivity|].
  inversion Hnum as [|? ? Hint Hrest]; subst.
  assert (Hfmt : allChars notMinus (groupThousands integerPart) = true)
    by (apply allChars_groupThousands; [reflexivity | assumption]).
  destruct rest as [|decimalPart rest']; simpl; [assumption|].
  inversion Hrest as [|? ? Hdec _]; subst.
  destruct decimalPart as [|c t]; [assumption|].
  rewrite allChars_app, Hfmt. simpl. exact Hdec.
Qed.

Lemma allChars_trimStart (p : ascii -> bool) (s : string) :
  allChars p s = true -> allChars p (trimStart s) = true.
Proof.
  assert (Hlen : forall n s', (String.length s' <= n)%nat ->
            allChars p s' = true -> allChars p (trimStart s') = true).
  { induction n as [|n IH]; intros s' Hn H.
    - destruct s'; [reflexivity | simpl in Hn; lia].
    - destruct s' as [|c1 t1]; [reflexivity|].
      cbn [String.length] in Hn. cbn [trimStart].
      pose proof H as Hall. cbn [allChars] in H.
      apply andb_prop in H as [_ H1].
      destruct (isWhiteSpace c1); [apply IH; [lia | exact H1]|].
      destruct t1 as [|c2 t2]; [exact Hall|].
      cbn [String.length] in Hn. cbn [allChars] in H1.
      apply andb_prop in H1 as [_ H2].
      destruct (isWideSpace2 c1 c2); [apply IH; [lia | exact H2]|].
      destruct t2 as [|c3 t3]; [exact Hall|].
      cbn [String.length] in Hn. cbn [allChars] in H2.
      apply andb_prop in H2 as [_ H3].
      destruct (isWideSpace3 c1 c2 c3); [apply IH; [lia | exact H3]|].
      exact Hall. }
  apply (Hlen (String.length s)). lia.
Qed.

Lemma readSign_notMinus (s : string) :
  allChars notMinus s = true -> fst (readSign s) = false.
Proof.
  destruct s as [|c t]; [reflexivity|]. simpl.
  intros H. apply andb_prop in H as [Hc _].
  destruct (Ascii.eqb_spec c "-"%char) as [->|Hne]; [discriminate Hc|].
  unfold readSign.
  destruct c as [[] [] [] [] [] [] [] []]; try reflexivity.
  now elim Hne.
Qed.

Lemma digitsValue_nonneg (ds : string) (acc : Z) :
  (0 <= acc)%Z -> (0 <= digitsValue acc ds)%Z.
Proof.
  revert acc. induction ds as [|c t IH]; intros acc Hacc;
    cbn [digitsValue].
  - assumption.
  - apply IH. unfold digitValue. lia.
Qed.

Lemma inject_Z_nonneg (z : Z) : (0 <= z)%Z -> 0 <= inject_Z z.
Proof. intros Hz. unfold Qle; simpl. lia. Qed.

Lemma parseFloat_nonneg (s : string) (q : Q) :
  allChars notMinus s = true -> parseFloat s = Some q -> 0 <= q.
Proof.
  intros Hs. apply allChars_trimStart, readSign_notMinus in Hs.
  unfold parseFloat.
  destruct (readSign (trimStart s)) as [negative s1]. simpl in Hs. subst.
  destruct (spanDigits s1) as [intDigits s2].
  set (frac := match s2 with
               | String "."%char t => spanDigits t
               | _ => (EmptyString, s2)
               end).
  destruct frac as [fracDigits s3].
  assert (Hvalue :
    0 <= (inject_Z (digitsValue 0 intDigits) +
          inject_Z (digitsValue 0 fracDigits) /
          inject_Z (10 ^ Z.of_nat (String.length fracDigits)))
         * 10 ^ readExponent s3).
  { apply Qmult_le_0_compat.
    - assert (0 <= inject_Z (digitsValue 0 intDigits))
        by (apply inject_Z_nonneg, digitsValue_nonneg; lia).
      assert (0 <= inject_Z (digitsValue 0 fracDigits) /
                   inject_Z (10 ^ Z.of_nat (String.length fracDigits))).
      { apply Qle_shift_div_l.
        - unfold Qlt; simpl.
          pose proof (Z.pow_pos_nonneg 10 (Z.of_nat (String.length fracDigits))).
          lia.
        - rewrite Qmult_0_l.
          apply inject_Z_nonneg, digitsValue_nonneg; lia. }
      lra.
    - apply Qlt_le_weak, Qpower_0_lt. reflexivity. }
  destruct intDigits, fracDigits; intros H; try discriminate H;
    injection H as <-; exact Hvalue.
Qed.

Lemma parseNumber_nonneg (s : string) :
  allChars notMinus s = true -> 0 <= parseNumber s.
Proof.
  intros Hs. unfold parseNumber.
  destruct (parseFloat (removeCommas s)) as [v|] eqn:E; [|lra].
  rewrite orZero_eq. apply (parseFloat_nonneg (removeCommas s)); [|exact E].
  now apply allChars_filterChars.
Qed.

(** What the income, EPF and SOCSO fields hold is never read as a negative
    number: [formatNumber] has dropped the sign. *)
Lemma parseNumber_formatNumber_nonneg (value : string) :
  0 <= parseNumber (formatNumber value).
Proof. apply parseNumber_nonneg, formatNumber_notMinus. Qed.

(** ** Invariants of the input state *)

Lemma run_invariant (P : FixedAmount.AppState -> Prop)
    (edits : list FixedAmount.Edit) :
  (forall st e, In e edits -> P st -> P (FixedAmount.step st e)) ->
  forall st, P st -> P (fold_left FixedAmount.step edits st).
Proof.
  induction edits as [|e edits IH]; intros Hstep st Hst; simpl.
  - assumption.
  - apply IH.
    + intros st' e' He'. apply Hstep. now right.
    + apply Hstep; [now left | assumption].
Qed.

Lemma setEntry_Forall (P : string * Q -> Prop) (key : string) (v : Q)
    (r : NumberRecord) :
  P (key, v) -> Forall P r -> Forall P (setEntry key v r).
Proof.
  intros Hv. induction 1 as [|[k w] r Hk Hr IH]; simpl.
  - repeat constructor. assumption.
  - destruct (String.eqb_spec k key) as [->|Hne].
    + constructor; assumption.
    + constructor; assumption.
Qed.

Lemma catalogue_caps_nonneg :
  Forall (fun d => 0 <= maxAmount d) availableDeductions.
Proof. repeat constructor; discriminate. Qed.

Lemma findDeduction_In (key : string) (d : Deduction) :
  findDeduction key = Some d -> In d availableDeductions /\ id d = key.
Proof.
  unfold findDeduction. intros H. apply find_some in H as [Hin Heq].
  split; [assumption | now apply String.eqb_eq].
Qed.

Lemma handleDeductionChange_withinCap (key value : string)
    (prev : NumberRecord) :
  Forall withinCap prev ->
  Forall withinCap (handleDeductionChange key value prev).
Proof.
  intros Hprev. unfold handleDeductionChange.
  destruct (findDeduction key) as [d|] eqn:E; [|assumption].
  apply setEntry_Forall; [|assumption].
  exists d. split; [exact E|]. apply Q.le_min_r.
Qed.

Lemma handleDeductionChange_nonneg (key value : string)
    (prev : NumberRecord) :
  0 <= parseNumber value ->
  nonNegativeEntries prev ->
  nonNegativeEntries (handleDeductionChange key value prev).
Proof.
  intros Hvalue Hprev. unfold handleDeductionChange.
  destruct (findDeduction key) as [d|] eqn:E; [|assumption].
  apply setEntry_Forall; [|assumption]. simpl.
  apply findDeduction_In in E as [Hin _].
  pose proof catalogue_caps_nonneg as Hcaps.
  rewrite Forall_forall in Hcaps. specialize (Hcaps d Hin).
  unfold capDeduction. apply Q.min_glb; assumption.
Qed.

Lemma run_deductions_withinCap (edits : list FixedAmount.Edit) :
  Forall withinCap (FixedAmount.deductions (FixedAmount.run edits)).
Proof.
  unfold FixedAmount.run.
  apply (run_invariant
           (fun st => Forall withinCap (FixedAmount.deductions st))).
  - intros st [v|v|v|k v|k v] _ Hst; simpl; try assumption.
    now apply handleDeductionChange_withinCap.
  - repeat constructor. simpl.
    eexists; split; [reflexivity | discriminate].
Qed.

Lemma run_deductions_nonneg (edits : list FixedAmount.Edit) :
  (forall k v, In (FixedAmount.DeductionEdit k v) edits ->
               0 <= parseNumber v) ->
  nonNegativeEntries (FixedAmount.deductions (FixedAmount.run edits)).
Proof.
  intros Hedits. unfold FixedAmount.run.
  apply (run_invariant
           (fun st => nonNegativeEntries (FixedAmount.deductions st))).
  - intros st [v|v|v|k v|k v] Hin Hst; simpl; try assumption.
    apply handleDeductionChange_nonneg; [|assumption].
    now apply (Hedits k).
  - repeat constructor. discriminate.
Qed.

Lemma run_contributions_nonneg (edits : list FixedAmount.Edit) :
  0 <= parseNumber (FixedAmount.epfAmount (FixedAmount.run edits)) /\
  0 <= parseNumber (FixedAmount.socsoAmount (FixedAmount.run edits)).
Proof.
  unfold FixedAmount.run.
  apply (run_invariant
           (fun st => 0 <= parseNumber (FixedAmount.epfAmount st) /\
                      0 <= parseNumber (FixedAmount.socsoAmount st))).
  - intros st [v|v|v|k v|k v] _ [Hepf Hsocso]; simpl; split;
      try assumption; apply parseNumber_formatNumber_nonneg.
  - split; discriminate.
Qed.

(** ** Deduction capping *)

(** C3, as stated, fails: a claim of -5 against the medical deduction (cap
    8,000) is capped to -5, not to min(max(-5, 0), 8000) = 0, and -5 is what
    the record then holds. *)
Lemma capDeduction_no_floor_counterexample :
  let medical :=
    mkDeduction "medical" "Special Medical Treatment for Self/Spouse/Child"
      8000 None in
  findDeduction "medical" = Some medical /\
  ~ capDeduction medical (- (5)) == Qmin (Qmax (- (5)) 0) (maxAmount medical) /\
  exists amount,
    In ("medical"%string, amount)
       (FixedAmount.deductions
          (FixedAmount.run [FixedAmount.DeductionEdit "medical" "-5"])) /\
    amount == - (5) /\ ~ 0 <= amount.
Proof.
  cbv zeta. split; [reflexivity|]. split.
  - intros H. vm_compute in H. discriminate H.
  - exists (- (5)). split; [|split].
    + vm_compute. right; left; reflexivity.
    + reflexivity.
    + intros H. vm_compute in H. now apply H.
Qed.

(** C3, amended.  [capDeduction] returns min(rawAmount, cap): the smaller of
    the two, which is min(max(rawAmount, 0), cap) whenever rawAmount is not
    negative.  Consequently, after any sequence of edits every stored
    deduction amount belongs to a catalogue entry and is at most its cap;
    it is at least 0 as well when no deduction edit was a negative number. *)
Theorem capDeduction_caps_above (d : Deduction) (rawAmount : Q)
    (edits : list FixedAmount.Edit) (key : string) (amount : Q) :
  (capDeduction d rawAmount <= maxAmount d /\
   capDeduction d rawAmount <= rawAmount /\
   (capDeduction d rawAmount == rawAmount \/
    capDeduction d rawAmount == maxAmount d)) /\
  (0 <= rawAmount ->
   capDeduction d rawAmount == Qmin (Qmax rawAmount 0) (maxAmount d)) /\
  (In (key, amount) (FixedAmount.deductions (FixedAmount.run edits)) ->
   (exists d', findDeduction key = Some d' /\ amount <= maxAmount d') /\
   ((forall k v, In (FixedAmount.DeductionEdit k v) edits ->
                 0 <= parseNumber v) ->
    0 <= amount)).
Proof.
  unfold capDeduction. split; [|split].
  - split; [apply Q.le_min_r|]. split; [apply Q.le_min_l|].
    destruct (Q.min_spec rawAmount (maxAmount d)) as [[_ H]|[_ H]]; auto.
  - intros Hraw. apply Q.min_compat; [|reflexivity].
    symmetry. apply Q.max_l. assumption.
  - intros Hin. split.
    + pose proof (run_deductions_withinCap edits) as H.
      rewrite Forall_forall in H. exact (H _ Hin).
    + intros Hedits. pose proof (run_deductions_nonneg edits Hedits) as H.
      unfold nonNegativeEntries in H. rewrite Forall_forall in H.
      exact (H _ Hin).
Qed.

Lemma capDeduction_caps_above_witness :
  let personal :=
    mkDeduction "personal" "Individual and Dependent Relatives"
      9000 (Some 9000) in
  let edits := [FixedAmount.DeductionEdit "personal" "15,000"] in
  0 <= 15000 /\
  In ("personal"%string, 9000)
     (FixedAmount.deductions (FixedAmount.run edits)) /\
  (forall k v, In (FixedAmount.DeductionEdit k v) edits ->
               0 <= parseNumber v) /\
  capDeduction personal 15000 == Qmin (Qmax 15000 0) (maxAmount personal) /\
  (exists d', findDeduction "personal" = Some d' /\ 9000 <= maxAmount d') /\
  0 <= 9000.
Proof.
  cbv zeta.
  assert (Hraw : 0 <= 15000) by discriminate.
  assert (Hin : In ("personal"%string, 9000)
                   (FixedAmount.deductions
                      (FixedAmount.run
                         [FixedAmount.DeductionEdit "personal" "15,000"])))
    by (vm_compute; left; reflexivity).
  assert (Hedits : forall k v,
             In (FixedAmount.DeductionEdit k v)
                [FixedAmount.DeductionEdit "personal" "15,000"] ->
             0 <= parseNumber v).
  { intros k v [H|[]]. injection H as <- <-. vm_compute. discriminate. }
  destruct (capDeduction_caps_above
              (mkDeduction "personal" "Individual and Dependent Relatives"
                 9000 (Some 9000))
              15000 [FixedAmount.DeductionEdit "personal" "15,000"]
              "personal" 9000) as (_ & Hmin & Hstored).
  destruct (Hstored Hin) as [Hcap Hfloor].
  split; [exact Hraw|]. split; [exact Hin|]. split; [exact Hedits|].
  split; [exact (Hmin Hraw)|]. split; [exact Hcap | exact (Hfloor Hedits)].
Defined.

(** ** The summary is not negative *)

Lemma computeSummary_nonneg (income epfDeduction socsoDeduction : Q)
    (deductions rebates : NumberRecord) :
  let r := FixedAmount.computeSummary income epfDeduction socsoDeduction
             deductions rebates in
  0 <= FixedAmount.taxableIncome r /\
  0 <= FixedAmount.taxAmount r /\
  (0 <= epfDeduction -> 0 <= socsoDeduction ->
   nonNegativeEntries deductions -> 0 <= FixedAmount.totalDeductions r).
Proof.
  cbv zeta. unfold FixedAmount.computeSummary; simpl.
  split; [apply Q.le_max_l|]. split; [apply Q.le_max_l|].
  intros Hepf Hsocso Hded.
  rewrite fold_left_sum_orZero.
  pose proof (sumOf_nonneg deductions Hded). lra.
Qed.

(** The effective rate is not negative either. *)
Lemma effectiveRate_nonneg (income epfDeduction socsoDeduction : Q)
    (deductions rebates : NumberRecord) :
  0 <= FixedAmount.effectiveRate
         (FixedAmount.computeSummary income epfDeduction socsoDeduction
            deductions rebates).
Proof.
  unfold FixedAmount.computeSummary; simpl.
  destruct (gtb income 0) eqn:E; [|lra].
  apply gtb_lt in E.
  apply Qmult_le_0_compat; [|discriminate].
  apply Qle_shift_div_l; [assumption|].
  rewrite Qmult_0_l. apply Q.le_max_l.
Qed.

(** C6, as stated, fails: a claim of -10,000 against the serious-disease
    deduction, on top of the default personal deduction of 9,000, makes the
    total deductions -1,000. *)
Lemma totalDeductions_negative_counterexample :
  let st := FixedAmount.run
              [FixedAmount.DeductionEdit "medical_serious" "-10000"] in
  FixedAmount.totalDeductions (FixedAmount.summaryEffect st) == - (1000) /\
  ~ 0 <= FixedAmount.totalDeductions (FixedAmount.summaryEffect st).
Proof.
  cbv zeta. split.
  - eval_Q.
  - intros H. vm_compute in H. now apply H.
Qed.

(** C6, amended.  After any sequence of edits the summary has a taxable
    income and a tax payable that are not negative; its total deductions
    are not negative either as long as no stored deduction amount is
    negative (the EPF and SOCSO amounts never are). *)
Theorem summary_not_negative (edits : list FixedAmount.Edit) :
  let st := FixedAmount.run edits in
  let r := FixedAmount.summaryEffect st in
  0 <= FixedAmount.taxableIncome r /\
  0 <= FixedAmount.taxAmount r /\
  (nonNegativeEntries (FixedAmount.deductions st) ->
   0 <= FixedAmount.totalDeductions r).
Proof.
  cbv zeta. unfold FixedAmount.summaryEffect, FixedAmount.calculateSocso.
  destruct (run_contributions_nonneg edits) as [Hepf Hsocso].
  set (st := FixedAmount.run edits) in *.
  destruct (computeSummary_nonneg
              (parseNumber (FixedAmount.annualIncome st))
              (parseNumber (FixedAmount.epfAmount st))
              (parseNumber (FixedAmount.socsoAmount st))
              (FixedAmount.deductions st) (FixedAmount.rebates st))
    as (Hti & Hta & Htd).
  split; [exact Hti|]. split; [exact Hta|].
  intros Hded. exact (Htd Hepf Hsocso Hded).
Qed.

Lemma summary_not_negative_witness :
  let edits :=
    [FixedAmount.IncomeEdit "100000"; FixedAmount.EpfEdit "-11,000";
     FixedAmount.DeductionEdit "medical" "500.50"] in
  nonNegativeEntries (FixedAmount.deductions (FixedAmount.run edits)) /\
  0 <= FixedAmount.totalDeductions
         (FixedAmount.summaryEffect (FixedAmount.run edits)).
Proof.
  cbv zeta.
  assert (Hded :
    nonNegativeEntries
      (FixedAmount.deductions
         (FixedAmount.run
            [FixedAmount.IncomeEdit "100000"; FixedAmount.EpfEdit "-11,000";
             FixedAmount.DeductionEdit "medical" "500.50"])))
    by (repeat constructor; vm_compute; discriminate).
  split; [exact Hded|].
  exact (proj2 (proj2
           (summary_not_negative
              [FixedAmount.IncomeEdit "100000"; FixedAmount.EpfEdit "-11,000";
               FixedAmount.DeductionEdit "medical" "500.50"])) Hded).
Defined.

(** ** The lookup is not monotone *)

(** Between incomes that both lie within a range of the table, the lookup
    revision never taxes the larger one less. *)
Lemma calculateTax_lookup_monotone_within_ranges (x y : Q)
    (rx ry : TaxRange) :
  In rx FixedAmount.taxRanges -> inRange x rx = true ->
  In ry FixedAmount.taxRanges -> inRange y ry = true ->
  x <= y -> FixedAmount.calculateTax x <= FixedAmount.calculateTax y.
Proof.
  intros Hrx Hx Hry Hy Hxy.
  rewrite <- (walk_lookup_same_table x rx Hrx Hx).
  rewrite <- (walk_lookup_same_table y ry Hry Hy).
  apply walkBrackets_monotone;
    [apply wellFormed_tables | lra | assumption].
Qed.

(** C4 at its failing input: the lookup revision taxes 20,000 at 149.99 and
    the larger income 20,000.5, which falls between two ranges, at 0.  Both
    are taxable incomes of the form: an income of 29,000 or of 29,000.5
    typed in, less the default personal deduction of 9,000. *)
Theorem calculateTax_lookup_drops_in_gap :
  0 <= 20000 /\ 20000 <= 20000.5 /\
  FixedAmount.calculateTax 20000 == 149.99 /\
  FixedAmount.calculateTax 20000.5 == 0 /\
  ~ FixedAmount.calculateTax 20000 <= FixedAmount.calculateTax 20000.5 /\
  let lower := FixedAmount.summaryEffect
                 (FixedAmount.run [FixedAmount.IncomeEdit "29000"]) in
  let higher := FixedAmount.summaryEffect
                  (FixedAmount.run [FixedAmount.IncomeEdit "29000.5"]) in
  FixedAmount.taxableIncome lower == 20000 /\
  FixedAmount.taxAmount lower == 149.99 /\
  FixedAmount.taxableIncome higher == 20000.5 /\
  FixedAmount.taxAmount higher == 0.
Proof.
  cbv zeta.
  split; [eval_Q|]. split; [eval_Q|]. split; [eval_Q|]. split; [eval_Q|].
  split; [intros H; vm_compute in H; now apply H|].
  split; [eval_Q|]. split; [eval_Q|]. split; eval_Q.
Qed.

(** * Further properties of the code *)

(** ** The text formatter *)

Lemma allChars_weaken (p q : ascii -> bool) (s : string) :
  (forall c, p c = true -> q c = true) ->
  allChars p s = true -> allChars q s = true.
Proof.
  intros Hpq. induction s as [|c t IH]; simpl; [reflexivity|].
  intros H. apply andb_prop in H as [Hc Ht].
  now rewrite (Hpq c Hc), IH.
Qed.

Lemma filterChars_app (keep : ascii -> bool) (a b : string) :
  filterChars keep (a ++ b) = (filterChars keep a ++ filterChars keep b)%string.
Proof.
  induction a as [|c t IH]; simpl; [reflexivity|].
  destruct (keep c); simpl; now rewrite IH.
Qed.

Lemma filterChars_id (keep : ascii -> bool) (s : string) :
  allChars keep s = true -> filterChars keep s = s.
Proof.
  induction s as [|c t IH]; simpl; [reflexivity|].
  intros H. apply andb_prop in H as [Hc Ht].
  now rewrite Hc, IH.
Qed.

Lemma filterChars_groupThousands (keep : ascii -> bool) (s : string) :
  keep ","%char = false ->
  filterChars keep (groupThousands s) = filterChars keep s.
Proof.
  intros Hcomma. induction s as [|c t IH]; [reflexivity|].
  cbn [groupThousands].
  destruct ((0 <? String.length t) && (String.length t mod 3 =? 0))%nat;
    cbn [filterChars]; rewrite ?Hcomma, IH; reflexivity.
Qed.

Lemma isDigit_isNumericChar (c : ascii) :
  isDigit c = true -> isNumericChar c = true.
Proof. unfold isNumericChar. now intros ->. Qed.

Lemma isDigit_notDot (c : ascii) : isDigit c = true -> notDot c = true.
Proof.
  unfold notDot. destruct (Ascii.eqb_spec c "."%char) as [->|]; [|reflexivity].
  discriminate.
Qed.

Lemma splitDot_digits (s : string) :
  allChars isNumericChar s = true ->
  Forall (fun part => allChars isDigit part = true) (splitDot s).
Proof.
  induction s as [|c t IH]; simpl; intros H.
  - repeat constructor.
  - apply andb_prop in H as [Hc Ht]. specialize (IH Ht).
    unfold isNumericChar in Hc.
    destruct (Ascii.eqb c "."%char).
    + constructor; [reflexivity | assumption].
    + rewrite orb_false_r in Hc.
      destruct (splitDot t) as [|h r].
      * repeat constructor. simpl. now rewrite Hc.
      * inversion IH; subst. constructor; [|assumption].
        simpl. now rewrite Hc.
Qed.

Lemma splitDot_no_dot (a : string) :
  allChars notDot a = true -> splitDot a = [a].
Proof.
  induction a as [|c t IH]; simpl; [reflexivity|].
  intros H. apply andb_prop in H as [Hc Ht]. unfold notDot in Hc.
  destruct (Ascii.eqb c "."%char); [discriminate Hc|].
  now rewrite (IH Ht).
Qed.

Lemma splitDot_app_dot (a b : string) :
  allChars notDot a = true ->
  splitDot (a ++ String "."%char b) = a :: splitDot b.
Proof.
  induction a as [|c t IH]; simpl; [reflexivity|].
  intros H. apply andb_prop in H as [Hc Ht]. unfold notDot in Hc.
  destruct (Ascii.eqb c "."%char); [discriminate Hc|].
  now rewrite (IH Ht).
Qed.

Lemma append_nil_r (s : string) : (s ++ "")%string = s.
Proof. induction s as [|c t IH]; simpl; [reflexivity | now rewrite IH]. Qed.

Lemma append_assoc (a b c : string) :
  ((a ++ b) ++ c)%string = (a ++ (b ++ c))%string.
Proof. induction a as [|x t IH]; simpl; [reflexivity | now rewrite IH]. Qed.

(** The stripped text, split at its dots: the integer part, and the decimal
    part when there is a non-empty one. *)
Lemma formatNumber_parts (value : string) :
  exists integerPart decimalPart,
    allChars isDigit integerPart = true /\
    allChars isDigit decimalPart = true /\
    formatNumber value
    = (groupThousands integerPart ++
       match decimalPart with
       | EmptyString => EmptyString
       | _ => String "."%char decimalPart
       end)%string.
Proof.
  unfold formatNumber.
  change (fun c => isDigit c || Ascii.eqb c "."%char) with isNumericChar.
  set (numericValue := filterChars isNumericChar value).
  assert (Hnum : allChars isNumericChar numericValue = true)
    by (apply allChars_filterChars_keep; auto).
  apply splitDot_digits in Hnum.
  destruct (splitDot numericValue) as [|integerPart rest]; simpl.
  - exists EmptyString, EmptyString. repeat split.
  - inversion Hnum as [|? ? Hint Hrest]; subst.
    destruct rest as [|decimalPart rest']; simpl.
    + exists integerPart, EmptyString. repeat split; [assumption|].
      now rewrite append_nil_r.
    + inversion Hrest as [|? ? Hdec _]; subst.
      exists integerPart, decimalPart. repeat split; try assumption.
      destruct decimalPart; [now rewrite append_nil_r | reflexivity].
Qed.

(** X1.  Formatting a text that is already formatted changes nothing: the
    income, EPF and SOCSO fields can be fed their own content again. *)
Theorem formatNumber_idempotent (value : string) :
  formatNumber (formatNumber value) = formatNumber value.
Proof.
  destruct (formatNumber_parts value)
    as (integerPart & decimalPart & Hint & Hdec & ->).
  assert (Hstrip : forall ds, allChars isDigit ds = true ->
                   filterChars isNumericChar (groupThousands ds) = ds).
  { intros ds Hds. rewrite filterChars_groupThousands by reflexivity.
    apply filterChars_id.
    revert Hds. apply allChars_weaken, isDigit_isNumericChar. }
  assert (Hnodot : allChars notDot integerPart = true)
    by (revert Hint; apply allChars_weaken, isDigit_notDot).
  unfold formatNumber at 1.
  change (fun c => isDigit c || Ascii.eqb c "."%char) with isNumericChar.
  rewrite filterChars_app, (Hstrip _ Hint).
  destruct decimalPart as [|c t].
  - simpl filterChars. rewrite !append_nil_r.
    now rewrite splitDot_no_dot.
  - remember (String c t) as d eqn:Ed.
    cbn [filterChars]. change (isNumericChar "."%char) with true. cbv iota.
    rewrite filterChars_id
      by (revert Hdec; apply allChars_weaken, isDigit_isNumericChar).
    rewrite splitDot_app_dot by assumption.
    rewrite splitDot_no_dot
      by (revert Hdec; apply allChars_weaken, isDigit_notDot).
    subst d. reflexivity.
Qed.

Lemma length_append (a b : string) :
  String.length (a ++ b) = (String.length a + String.length b)%nat.
Proof. induction a as [|c t IH]; simpl; [reflexivity | now rewrite IH]. Qed.

(** X3.  Grouping a text that has no comma only adds commas: taking them out
    gives the text back, and a text of n characters gets (n - 1) / 3 of
    them. *)
Theorem groupThousands_commas (s : string) :
  allChars (fun c => negb (Ascii.eqb c ","%char)) s = true ->
  removeCommas (groupThousands s) = s /\
  String.length (groupThousands s)
  = (String.length s + (String.length s - 1) / 3)%nat.
Proof.
  intros Hs. split.
  - unfold removeCommas.
    rewrite filterChars_groupThousands by reflexivity.
    now apply filterChars_id.
  - clear Hs. induction s as [|c t IH]; [reflexivity|].
    cbn [groupThousands String.length].
    set (n := String.length t) in *.
    destruct ((0 <? n) && (n mod 3 =? 0))%nat eqn:E;
      cbn [String.length]; rewrite IH.
    + apply andb_prop in E as [Hpos Hmod].
      apply Nat.ltb_lt in Hpos. apply Nat.eqb_eq in Hmod.
      replace (S n - 1)%nat with n by lia.
      pose proof (Nat.div_mod_eq n 3). pose proof (Nat.div_mod_eq (n - 1) 3).
      pose proof (Nat.mod_upper_bound (n - 1) 3). lia.
    + replace (S n - 1)%nat with n by lia.
      apply andb_false_iff in E as [Hz | Hmod].
      * apply Nat.ltb_ge in Hz. assert (n = 0%nat) by lia. subst n.
        rewrite H. reflexivity.
      * apply Nat.eqb_neq in Hmod.
        pose proof (Nat.div_mod_eq n 3). pose proof (Nat.div_mod_eq (n - 1) 3).
        pose proof (Nat.mod_upper_bound (n - 1) 3).
        pose proof (Nat.mod_upper_bound n 3). lia.
Qed.

(** ** Reading a formatted text *)

Lemma isDigit_plain (c : ascii) :
  isDigit c = true -> isSpaceLead c = false /\ isSign c = false.
Proof.
  destruct c as [[] [] [] [] [] [] [] []]; vm_compute; intros H;
    try discriminate H; split; reflexivity.
Qed.

Lemma trimStart_id (x : string) :
  headIs isSpaceLead x = false -> trimStart x = x.
Proof.
  destruct x as [|c1 t1]; [reflexivity|]. cbn [headIs trimStart].
  unfold isSpaceLead. cbv zeta. intros H.
  apply orb_false_elim in H as [H H239].
  apply orb_false_elim in H as [H H227].
  apply orb_false_elim in H as [H H226].
  apply orb_false_elim in H as [H H225].
  apply orb_false_elim in H as [Hws H194].
  rewrite Hws. destruct t1 as [|c2 t2]; [reflexivity|].
  unfold isWideSpace2. rewrite H194. cbn [andb].
  destruct t2 as [|c3 t3]; [reflexivity|].
  unfold isWideSpace3. cbv zeta. rewrite H225, H226, H227, H239.
  reflexivity.
Qed.

Lemma readSign_id (x : string) :
  headIs isSign x = false -> readSign x = (false, x).
Proof.
  destruct x as [|c t]; [reflexivity|]. unfold headIs, isSign. intros H.
  apply orb_false_elim in H as [Hm Hp].
  destruct (Ascii.eqb_spec c "-"%char) as [|Hnm]; [discriminate Hm|].
  destruct (Ascii.eqb_spec c "+"%char) as [|Hnp]; [discriminate Hp|].
  unfold readSign.
  destruct c as [[] [] [] [] [] [] [] []]; try reflexivity;
    [now elim Hnp | now elim Hnm].
Qed.

Lemma spanDigits_app (a x : string) :
  allChars isDigit a = true -> headIs isDigit x = false ->
  spanDigits (a ++ x) = (a, x).
Proof.
  intros Ha Hx. induction a as [|c t IH]; simpl.
  - destruct x as [|c t]; [reflexivity|]. simpl in *. now rewrite Hx.
  - simpl in Ha. apply andb_prop in Ha as [Hc Ht].
    now rewrite Hc, (IH Ht).
Qed.

Lemma spanDigits_digits (a : string) :
  allChars isDigit a = true -> spanDigits a = (a, EmptyString).
Proof.
  intros Ha. rewrite <- (append_nil_r a) at 1.
  now apply spanDigits_app.
Qed.

Lemma headIs_joinDot (p : ascii -> bool) (parts : list string) :
  p "."%char = false -> headIs p (joinDot parts) = false.
Proof. intros Hp. destruct parts; simpl; [reflexivity | assumption]. Qed.

Lemma readExponent_joinDot (parts : list string) :
  readExponent (joinDot parts) = 0%Z.
Proof. destruct parts; reflexivity. Qed.

(** A numeric text that starts with digits or a dot has nothing in front of
    its number. *)
Lemma numeric_head_plain (ip y : string) :
  allChars isDigit ip = true ->
  headIs isSpaceLead (ip ++ String "."%char y) = false /\
  headIs isSign (ip ++ String "."%char y) = false.
Proof.
  destruct ip as [|c t]; simpl; [split; reflexivity|].
  intros H. apply andb_prop in H as [Hc _]. now apply isDigit_plain.
Qed.

Lemma digits_head_plain (ip : string) :
  allChars isDigit ip = true ->
  headIs isSpaceLead ip = false /\ headIs isSign ip = false.
Proof.
  destruct ip as [|c t]; simpl; [split; reflexivity|].
  intros H. apply andb_prop in H as [Hc _]. now apply isDigit_plain.
Qed.

Lemma parseFloat_decimal (ip d : string) (rest : list string) :
  allChars isDigit ip = true -> allChars isDigit d = true ->
  parseFloat (ip ++ String "."%char (d ++ joinDot rest))
  = match ip, d with
    | EmptyString, EmptyString => None
    | _, _ => Some (decimalValue ip d * 10 ^ 0)
    end.
Proof.
  intros Hip Hd. unfold parseFloat.
  destruct (numeric_head_plain ip (d ++ joinDot rest) Hip) as [Hws Hsign].
  rewrite (trimStart_id _ Hws), (readSign_id _ Hsign).
  rewrite (spanDigits_app ip _ Hip) by reflexivity.
  rewrite (spanDigits_app d _ Hd) by (now apply headIs_joinDot).
  rewrite readExponent_joinDot. reflexivity.
Qed.

Lemma parseFloat_integer (ip : string) :
  allChars isDigit ip = true ->
  parseFloat ip
  = match ip with
    | EmptyString => None
    | _ => Some (decimalValue ip EmptyString * 10 ^ 0)
    end.
Proof.
  intros Hip. unfold parseFloat.
  destruct (digits_head_plain ip Hip) as [Hws Hsign].
  rewrite (trimStart_id _ Hws), (readSign_id _ Hsign).
  rewrite (spanDigits_digits ip Hip). destruct ip; reflexivity.
Qed.

Lemma splitDot_nonempty (s : string) : splitDot s <> [].
Proof.
  destruct s as [|c t]; simpl; [discriminate|].
  destruct (Ascii.eqb c "."%char); [discriminate|].
  destruct (splitDot t); discriminate.
Qed.

Lemma splitDot_join (s : string) :
  forall ip rest, splitDot s = ip :: rest -> s = (ip ++ joinDot rest)%string.
Proof.
  induction s as [|c t IH]; simpl; intros ip rest H.
  - injection H as <- <-. reflexivity.
  - destruct (Ascii.eqb_spec c "."%char) as [->|Hne].
    + injection H as <- <-. simpl.
      destruct (splitDot t) as [|h r] eqn:E;
        [now apply splitDot_nonempty in E|].
      simpl. now rewrite (IH h r eq_refl).
    + destruct (splitDot t) as [|h r] eqn:E;
        [now apply splitDot_nonempty in E|].
      injection H as <- <-. simpl. now rewrite (IH h r eq_refl).
Qed.

Lemma removeCommas_numeric (s : string) :
  allChars isNumericChar s = true -> removeCommas s = s.
Proof.
  intros Hs. apply filterChars_id. revert Hs. apply allChars_weaken.
  intros c Hc. destruct (Ascii.eqb_spec c ","%char) as [->|]; [|reflexivity].
  discriminate Hc.
Qed.

(** Formatting does not change the number read. *)
Lemma parse_formatted (value : string) :
  parseNumber (formatNumber value)
  = parseNumber (filterChars isNumericChar value).
Proof.
  unfold parseNumber.
  assert (Hnum : allChars isNumericChar (filterChars isNumericChar value) = true)
    by (apply allChars_filterChars_keep; auto).
  rewrite (removeCommas_numeric _ Hnum).
  unfold formatNumber.
  change (fun c => isDigit c || Ascii.eqb c "."%char) with isNumericChar.
  set (s := filterChars isNumericChar value) in *.
  pose proof (splitDot_digits s Hnum) as Hparts.
  pose proof (splitDot_join s) as Hjoin.
  destruct (splitDot s) as [|ip rest] eqn:E;
    [now apply splitDot_nonempty in E|].
  specialize (Hjoin ip rest eq_refl).
  pose proof (Forall_inv Hparts) as Hip.
  pose proof (Forall_inv_tail Hparts) as Hrest. cbv beta in Hip.
  assert (Hstrip : removeCommas (groupThousands ip) = ip).
  { unfold removeCommas. rewrite filterChars_groupThousands by reflexivity.
    apply filterChars_id. revert Hip. apply allChars_weaken.
    intros c Hc. destruct (Ascii.eqb_spec c ","%char) as [->|]; [|reflexivity].
    discriminate Hc. }
  cbn [nth nth_error].
  destruct rest as [|d rest'].
  - cbn [nth_error]. rewrite Hstrip, Hjoin. simpl. now rewrite append_nil_r.
  - pose proof (Forall_inv Hrest) as Hd. cbv beta in Hd.
    rewrite Hjoin. cbn [joinDot].
    rewrite (parseFloat_decimal ip d rest' Hip Hd).
    destruct d as [|c t]; cbn [nth_error].
    + rewrite Hstrip, (parseFloat_integer ip Hip). reflexivity.
    + remember (String c t) as d eqn:Ed.
      assert (Hdot : removeCommas (groupThousands ip ++ "." ++ d)
                     = (ip ++ String "."%char (d ++ joinDot []))%string).
      { unfold removeCommas in *. rewrite filterChars_app, Hstrip.
        cbn [append filterChars]. cbn. rewrite append_nil_r.
        f_equal. f_equal. apply filterChars_id.
        revert Hd. apply allChars_weaken.
        intros x Hx.
        destruct (Ascii.eqb_spec x ","%char) as [->|]; [|reflexivity].
        discriminate Hx. }
      rewrite Hdot, (parseFloat_decimal ip d [] Hip Hd). subst d.
      reflexivity.
Qed.

(** X4.  The formatted text reads as the same number as the typed text
    stripped of everything but digits and dots, and never as a negative
    one: the commas put in and the parts dropped after a second dot do not
    count. *)
Theorem formatNumber_preserves_number (value : string) :
  parseNumber (formatNumber value)
  = parseNumber (filterChars isNumericChar value) /\
  0 <= parseNumber (formatNumber value).
Proof.
  split; [apply parse_formatted | apply parseNumber_formatNumber_nonneg].
Qed.

(** X5.  Digits, a dot and digits, once formatted, read as the number they
    spell; digits alone read as the whole number they spell. *)
Theorem formatted_decimal_value (ip d : string) :
  allChars isDigit ip = true -> allChars isDigit d = true ->
  parseNumber (formatNumber (ip ++ String "."%char d)) == decimalValue ip d /\
  parseNumber (formatNumber ip) == inject_Z (digitsValue 0 ip).
Proof.
  intros Hip Hd.
  assert (Hone : forall q : Q, q * 10 ^ 0 == q) by (intros q; simpl; lra).
  split; rewrite parse_formatted.
  - assert (Hnum : allChars isNumericChar (ip ++ String "."%char d) = true).
    { rewrite allChars_app. simpl.
      rewrite (allChars_weaken _ _ ip isDigit_isNumericChar Hip).
      now rewrite (allChars_weaken _ _ d isDigit_isNumericChar Hd). }
    rewrite (filterChars_id _ _ Hnum). unfold parseNumber.
    rewrite (removeCommas_numeric _ Hnum).
    rewrite <- (append_nil_r d) at 1. change EmptyString with (joinDot []) at 1.
    rewrite (parseFloat_decimal ip d [] Hip Hd).
    destruct ip, d; try (rewrite orZero_eq; apply Hone).
    vm_compute. reflexivity.
  - assert (Hnum : allChars isNumericChar ip = true)
      by (revert Hip; apply allChars_weaken, isDigit_isNumericChar).
    rewrite (filterChars_id _ _ Hnum). unfold parseNumber.
    rewrite (removeCommas_numeric _ Hnum), (parseFloat_integer ip Hip).
    destruct ip; [reflexivity|].
    rewrite orZero_eq, Hone. unfold decimalValue. simpl digitsValue at 2.
    change (inject_Z 0 / inject_Z (10 ^ Z.of_nat (String.length "")))
      with 0.
    lra.
Qed.

(** ** Text without a digit *)

Lemma spanDigits_no_digit (z : string) :
  headIs isDigit z = false -> spanDigits z = (EmptyString, z).
Proof. destruct z as [|c t]; simpl; [reflexivity | now intros ->]. Qed.

Lemma allChars_headIs (p q : ascii -> bool) (s : string) :
  (forall c, p c = true -> q c = false) ->
  allChars p s = true -> headIs q s = false.
Proof.
  intros Hpq. destruct s as [|c t]; simpl; [reflexivity|].
  intros H. apply andb_prop in H as [Hc _]. auto.
Qed.

Lemma notDigit_head (s : string) :
  allChars notDigit s = true -> headIs isDigit s = false.
Proof.
  apply allChars_headIs. unfold notDigit. intros c Hc.
  now destruct (isDigit c).
Qed.

Lemma parseFloat_no_digit (s : string) :
  allChars notDigit s = true -> parseFloat s = None.
Proof.
  intros Hs. apply allChars_trimStart in Hs. unfold parseFloat.
  assert (Hsign : allChars notDigit (snd (readSign (trimStart s))) = true).
  { destruct (trimStart s) as [|c t]; [reflexivity|].
    assert (Ht : allChars notDigit t = true)
      by (simpl in Hs; now apply andb_prop in Hs as [_ Ht]).
    unfold readSign.
    destruct c as [[] [] [] [] [] [] [] []]; simpl; assumption. }
  destruct (readSign (trimStart s)) as [negative s1]. simpl in Hsign.
  rewrite (spanDigits_no_digit s1) by (now apply notDigit_head).
  assert (Hfrac :
    fst (match s1 with
         | String "."%char t => spanDigits t
         | _ => (EmptyString, s1)
         end) = EmptyString).
  { destruct s1 as [|c t]; [reflexivity|].
    assert (Ht : allChars notDigit t = true)
      by (simpl in Hsign; now apply andb_prop in Hsign as [_ Ht]).
    pose proof (spanDigits_no_digit t (notDigit_head t Ht)) as Hspan.
    destruct c as [[] [] [] [] [] [] [] []]; try reflexivity.
    now rewrite Hspan. }
  destruct (match s1 with
            | String "."%char t => spanDigits t
            | _ => (EmptyString, s1)
            end) as [fracDigits s3].
  simpl in Hfrac. subst fracDigits. reflexivity.
Qed.

(** X6.  A text without any digit (empty, letters, signs, dots) reads as 0
    once formatted, whatever it is; read raw, as the deduction and rebate
    fields are, it reads as 0 unless, its commas taken out, it spells an
    infinity (the one such text that JavaScript does not read as [NaN], and
    which the model does not cover). *)
Theorem parseNumber_no_digit (value : string) :
  allChars notDigit value = true ->
  (spellsInfinity (removeCommas value) = false -> parseNumber value = 0) /\
  parseNumber (formatNumber value) = 0.
Proof.
  intros Hv.
  assert (Hzero : forall s, allChars notDigit s = true -> parseNumber s = 0).
  { intros s Hs. unfold parseNumber.
    now rewrite parseFloat_no_digit by (now apply allChars_filterChars). }
  split; [intros _; now apply Hzero|].
  rewrite parse_formatted.
  apply Hzero. now apply allChars_filterChars.
Qed.

(** ** Records *)

Lemma getEntry_setEntry_other (key other : string) (v : Q)
    (r : NumberRecord) :
  other <> key -> getEntry other (setEntry key v r) = getEntry other r.
Proof.
  intros Hne. induction r as [|[k w] r IH]; simpl.
  - destruct (String.eqb_spec key other); [congruence | reflexivity].
  - destruct (String.eqb_spec k key) as [->|Hk]; simpl.
    + destruct (String.eqb_spec key other); [congruence | reflexivity].
    + now rewrite IH.
Qed.

Lemma setEntry_setEntry (key : string) (v1 v2 : Q) (r : NumberRecord) :
  setEntry key v2 (setEntry key v1 r) = setEntry key v2 r.
Proof.
  induction r as [|[k w] r IH]; simpl.
  - now rewrite String.eqb_refl.
  - destruct (String.eqb k key) eqn:E; simpl; rewrite E;
      [reflexivity | now rewrite IH].
Qed.

Lemma keys_setEntry (key : string) (v : Q) (r : NumberRecord) :
  keys (setEntry key v r)
  = if existsb (fun k => String.eqb k key) (keys r) then keys r
    else keys r ++ [key].
Proof.
  unfold keys. induction r as [|[k w] r IH]; simpl; [reflexivity|].
  destruct (String.eqb k key) eqn:E; simpl; [reflexivity|].
  rewrite IH. now destruct (existsb _ (List.map fst r)).
Qed.

Lemma NoDup_keys_setEntry (key : string) (v : Q) (r : NumberRecord) :
  NoDup (keys r) -> NoDup (keys (setEntry key v r)).
Proof.
  intros Hr. rewrite keys_setEntry.
  destruct (existsb _ (keys r)) eqn:E; [assumption|].
  apply NoDup_app; [assumption | repeat constructor; intros [] | ].
  intros k Hk [Hkey|[]]. subst k.
  assert (existsb (fun k' => String.eqb k' key) (keys r) = true);
    [|congruence].
  apply existsb_exists. exists key. split; [assumption|].
  apply String.eqb_refl.
Qed.

(** Writing an entry changes the sum of the record by the difference
    between the new amount and the one it replaces. *)
Lemma sumOf_setEntry (key : string) (v : Q) (r : NumberRecord) :
  sumOf (values (setEntry key v r))
  == sumOf (values r) - match getEntry key r with Some w => w | None => 0 end
     + v.
Proof.
  unfold sumOf, values. induction r as [|[k w] r IH]; simpl.
  - lra.
  - destruct (String.eqb k key); simpl; [lra|].
    rewrite IH. lra.
Qed.

(** ** The deduction and rebate handlers *)

(** X7.  Editing a deduction of the catalogue stores the smaller of the
    typed amount and the cap under its id, the cap itself once the typed
    amount reaches it; an id outside the catalogue leaves the record as it
    was; no other entry is touched. *)
Theorem handleDeductionChange_effect (key value : string)
    (prev : NumberRecord) :
  (forall d, findDeduction key = Some d ->
     getEntry key (handleDeductionChange key value prev)
     = Some (Qmin (parseNumber value) (maxAmount d)) /\
     (maxAmount d <= parseNumber value ->
      exists stored,
        getEntry key (handleDeductionChange key value prev) = Some stored /\
        stored == maxAmount d)) /\
  (findDeduction key = None ->
   handleDeductionChange key value prev = prev) /\
  (forall other, other <> key ->
     getEntry other (handleDeductionChange key value prev)
     = getEntry other prev).
Proof.
  unfold handleDeductionChange. split; [|split].
  - intros d Hd. rewrite Hd. unfold capDeduction.
    rewrite getEntry_setEntry. split; [reflexivity|].
    intros Hcap. eexists; split; [reflexivity|]. now apply Q.min_r.
  - now intros ->.
  - intros other Hne. destruct (findDeduction key); [|reflexivity].
    now apply getEntry_setEntry_other.
Qed.

(** X8.  Of two edits of the same field the second one alone counts, for
    deductions and for rebates, and the second adds no entry. *)
Theorem handlers_last_write_wins (key v1 v2 : string) (prev : NumberRecord) :
  handleDeductionChange key v2 (handleDeductionChange key v1 prev)
  = handleDeductionChange key v2 prev /\
  handleRebateChange key v2 (handleRebateChange key v1 prev)
  = handleRebateChange key v2 prev /\
  keys (handleRebateChange key v2 (handleRebateChange key v1 prev))
  = keys (handleRebateChange key v1 prev).
Proof.
  unfold handleDeductionChange, handleRebateChange. split; [|split].
  - destruct (findDeduction key); [apply setEntry_setEntry | reflexivity].
  - apply setEntry_setEntry.
  - rewrite setEntry_setEntry, !keys_setEntry.
    destruct (existsb _ (keys prev)); reflexivity.
Qed.

(** X9.  Edits of two different fields can be made in either order: every
    entry reads the same afterwards. *)
Theorem handlers_commute (k1 k2 v1 v2 : string) (prev : NumberRecord) :
  k1 <> k2 ->
  forall key,
    getEntry key
      (handleDeductionChange k1 v1 (handleDeductionChange k2 v2 prev))
    = getEntry key
        (handleDeductionChange k2 v2 (handleDeductionChange k1 v1 prev)) /\
    getEntry key (handleRebateChange k1 v1 (handleRebateChange k2 v2 prev))
    = getEntry key (handleRebateChange k2 v2 (handleRebateChange k1 v1 prev)).
Proof.
  intros Hne key.
  assert (Hset : forall a b r,
    getEntry key (setEntry k1 a (setEntry k2 b r))
    = getEntry key (setEntry k2 b (setEntry k1 a r))).
  { intros a b r.
    destruct (String.eqb_spec key k1) as [->|H1];
      [|destruct (String.eqb_spec key k2) as [->|H2]].
    - rewrite getEntry_setEntry, getEntry_setEntry_other by assumption.
      now rewrite getEntry_setEntry.
    - rewrite getEntry_setEntry_other, !getEntry_setEntry by congruence.
      reflexivity.
    - now rewrite !getEntry_setEntry_other by assumption. }
  unfold handleDeductionChange, handleRebateChange. split; [|apply Hset].
  destruct (findDeduction k1), (findDeduction k2);
    [apply Hset | reflexivity | reflexivity | reflexivity].
Qed.

(** ** What every state of the form keeps *)

Lemma loop_run_invariant (P : LoopRevision.AppState -> Prop)
    (edits : list LoopRevision.Edit) :
  (forall st e, P st -> P (LoopRevision.step st e)) ->
  forall st, P st -> P (fold_left LoopRevision.step edits st).
Proof.
  intros Hstep. induction edits as [|e edits IH]; intros st Hst; simpl.
  - assumption.
  - apply IH, Hstep, Hst.
Qed.

(** A property of the two records that the handlers keep holds in every
    state either form can reach. *)
Lemma records_invariant (P R : NumberRecord -> Prop) :
  P defaultDeductions ->
  R [("individual"%string, 0); ("spouse"%string, 0); ("zakat"%string, 0)] ->
  (forall key value r, P r -> P (handleDeductionChange key value r)) ->
  (forall key value r, R r -> R (handleRebateChange key value r)) ->
  (forall edits,
     P (FixedAmount.deductions (FixedAmount.run edits)) /\
     R (FixedAmount.rebates (FixedAmount.run edits))) /\
  (forall edits,
     P (LoopRevision.deductions (LoopRevision.run edits)) /\
     R (LoopRevision.rebates (LoopRevision.run edits))).
Proof.
  intros HP HR Hded Hreb. split; intros edits.
  - unfold FixedAmount.run.
    apply (run_invariant
             (fun st => P (FixedAmount.deductions st) /\
                        R (FixedAmount.rebates st))).
    + intros st [v|v|v|k v|k v] _ [H1 H2]; simpl; split; auto.
    + split; assumption.
  - unfold LoopRevision.run.
    apply (loop_run_invariant
             (fun st => P (LoopRevision.deductions st) /\
                        R (LoopRevision.rebates st))).
    + intros st [v|v|v|k v|k v] [H1 H2]; simpl; split; auto.
    + split; assumption.
Qed.

Lemma withinCap_key (entry : string * Q) :
  withinCap entry ->
  In (fst entry) (List.map id availableDeductions) /\
  snd entry <= capOf (fst entry).
Proof.
  intros (d & Hfind & Hle). unfold capOf. rewrite Hfind.
  split; [|assumption].
  apply findDeduction_In in Hfind as [Hin <-]. now apply in_map.
Qed.

Lemma capOf_nonneg (key : string) : 0 <= capOf key.
Proof.
  unfold capOf. destruct (findDeduction key) as [d|] eqn:E; [|lra].
  apply findDeduction_In in E as [Hin _].
  pose proof catalogue_caps_nonneg as H. rewrite Forall_forall in H. auto.
Qed.

Lemma sumOf_app (l m : list Q) : sumOf (l ++ m) == sumOf l + sumOf m.
Proof.
  unfold sumOf. induction l as [|v l IH]; cbn [fold_right app];
    [lra | rewrite IH; lra].
Qed.

(** A sum of amounts that are not negative does not shrink when keys are
    added. *)
Lemma sumOf_incl (f : string -> Q) (l m : list string) :
  (forall k, 0 <= f k) -> NoDup l -> incl l m ->
  sumOf (List.map f l) <= sumOf (List.map f m).
Proof.
  intros Hf Hl. revert m. induction Hl as [|a l Ha Hl IH]; intros m Hincl.
  - clear Hincl. unfold sumOf.
    induction m as [|b m IHm]; cbn [List.map fold_right] in *; [lra|].
    specialize (Hf b). lra.
  - assert (Hin : In a m) by (apply Hincl; now left).
    apply in_split in Hin as (m1 & m2 & ->).
    assert (Hrest : incl l (m1 ++ m2)).
    { intros k Hk. assert (Hkm : In k (m1 ++ a :: m2))
        by (apply Hincl; now right).
      apply in_app_or in Hkm as [H1 | [H2 | H3]];
        [apply in_or_app; now left | subst; contradiction
        | apply in_or_app; now right]. }
    specialize (IH _ Hrest).
    rewrite map_app, sumOf_app in *.
    unfold sumOf in *. cbn [List.map fold_right] in *. lra.
Qed.

Lemma sumOf_le_caps (r : NumberRecord) :
  Forall withinCap r ->
  sumOf (values r) <= sumOf (List.map capOf (keys r)).
Proof.
  unfold sumOf, values, keys.
  induction 1 as [|e r He _ IH]; cbn [List.map fold_right]; [lra|].
  apply withinCap_key in He as [_ He]. lra.
Qed.

Lemma handlers_keep_keys :
  (forall edits,
     (NoDup (keys (FixedAmount.deductions (FixedAmount.run edits))) /\
      Forall withinCap (FixedAmount.deductions (FixedAmount.run edits))) /\
     (NoDup (keys (FixedAmount.rebates (FixedAmount.run edits))) /\
      incl ["individual"; "spouse"; "zakat"]%string
        (keys (FixedAmount.rebates (FixedAmount.run edits))))) /\
  (forall edits,
     (NoDup (keys (LoopRevision.deductions (LoopRevision.run edits))) /\
      Forall withinCap (LoopRevision.deductions (LoopRevision.run edits))) /\
     (NoDup (keys (LoopRevision.rebates (LoopRevision.run edits))) /\
      incl ["individual"; "spouse"; "zakat"]%string
        (keys (LoopRevision.rebates (LoopRevision.run edits))))).
Proof.
  apply (records_invariant
           (fun r => NoDup (keys r) /\ Forall withinCap r)
           (fun r => NoDup (keys r) /\
                     incl ["individual"; "spouse"; "zakat"]%string (keys r))).
  - split.
    + repeat constructor. intros [].
    + repeat constructor. simpl.
      eexists; split; [reflexivity | discriminate].
  - split.
    + repeat constructor; simpl; intuition discriminate.
    + apply incl_refl.
  - intros key value r [Hnd Hcap]. split.
    + unfold handleDeductionChange.
      destruct (findDeduction key); [now apply NoDup_keys_setEntry | assumption].
    + now apply handleDeductionChange_withinCap.
  - intros key value r [Hnd Hincl]. unfold handleRebateChange. split.
    + now apply NoDup_keys_setEntry.
    + rewrite keys_setEntry. destruct (existsb _ (keys r)); [assumption|].
      intros k Hk. apply in_or_app. left. now apply Hincl.
Qed.

Lemma relief_bound (r : NumberRecord) :
  NoDup (keys r) -> Forall withinCap r -> sumOf (values r) <= 88850.
Proof.
  intros Hnd Hcap.
  eapply Qle_trans; [apply sumOf_le_caps; assumption|].
  eapply Qle_trans.
  - apply (sumOf_incl capOf (keys r) (List.map id availableDeductions));
      [apply capOf_nonneg | assumption |].
    intros k Hk. unfold keys in Hk. apply in_map_iff in Hk as (e & <- & He).
    rewrite Forall_forall in Hcap. now apply withinCap_key, Hcap.
  - vm_compute. discriminate.
Qed.

(** X11.  In every state either form can reach, no key occurs twice in the
    deductions or in the rebates, every deduction key is an id of the
    catalogue (so there are at most 20 entries), and the three rebates of
    the form are still there. *)
Theorem records_have_unique_keys :
  (forall edits,
     let st := FixedAmount.run edits in
     NoDup (keys (FixedAmount.deductions st)) /\
     incl (keys (FixedAmount.deductions st))
       (List.map id availableDeductions) /\
     (List.length (FixedAmount.deductions st) <= 20)%nat /\
     NoDup (keys (FixedAmount.rebates st)) /\
     incl ["individual"; "spouse"; "zakat"]%string
       (keys (FixedAmount.rebates st))) /\
  (forall edits,
     let st := LoopRevision.run edits in
     NoDup (keys (LoopRevision.deductions st)) /\
     incl (keys (LoopRevision.deductions st))
       (List.map id availableDeductions) /\
     (List.length (LoopRevision.deductions st) <= 20)%nat /\
     NoDup (keys (LoopRevision.rebates st)) /\
     incl ["individual"; "spouse"; "zakat"]%string
       (keys (LoopRevision.rebates st))).
Proof.
  assert (Hkeys : forall r, NoDup (keys r) -> Forall withinCap r ->
            incl (keys r) (List.map id availableDeductions) /\
            (List.length r <= 20)%nat).
  { intros r Hnd Hcap.
    assert (Hincl : incl (keys r) (List.map id availableDeductions)).
    { intros k Hk. unfold keys in Hk.
      apply in_map_iff in Hk as (e & <- & He).
      rewrite Forall_forall in Hcap. now apply withinCap_key, Hcap. }
    split; [assumption|].
    apply NoDup_incl_length in Hincl; [|assumption].
    unfold keys in Hincl. now rewrite length_map in Hincl. }
  destruct handlers_keep_keys as [Hfix Hloop].
  split; intros edits; cbv zeta.
  - destruct (Hfix edits) as [[Hnd Hcap] [Hrnd Hrincl]].
    destruct (Hkeys _ Hnd Hcap) as [Hincl Hlen]. repeat split; assumption.
  - destruct (Hloop edits) as [[Hnd Hcap] [Hrnd Hrincl]].
    destruct (Hkeys _ Hnd Hcap) as [Hincl Hlen]. repeat split; assumption.
Qed.

(** X12.  In every state either form can reach, the reliefs sum to at most
    88,850, which is the sum of all the caps of the catalogue and is reached
    by claiming 999,999 in each of the 20 fields; in the lookup form the
    total deductions are at most the EPF and SOCSO amounts plus 88,850. *)
Theorem relief_total_bounded :
  (forall edits,
     let st := FixedAmount.run edits in
     sumOf (values (FixedAmount.deductions st)) <= 88850 /\
     FixedAmount.totalDeductions (FixedAmount.summaryEffect st)
     <= parseNumber (FixedAmount.epfAmount st)
        + parseNumber (FixedAmount.socsoAmount st) + 88850) /\
  (forall edits,
     let st := LoopRevision.run edits in
     sumOf (values (LoopRevision.deductions st)) <= 88850) /\
  sumOf (List.map maxAmount availableDeductions) == 88850 /\
  sumOf (values
           (FixedAmount.deductions
              (FixedAmount.run
                 (List.map (fun d => FixedAmount.DeductionEdit (id d) "999999")
                    availableDeductions)))) == 88850 /\
  sumOf (values
           (LoopRevision.deductions
              (LoopRevision.run
                 (List.map (fun d => LoopRevision.DeductionEdit (id d) "999999")
                    availableDeductions)))) == 88850.
Proof.
  destruct handlers_keep_keys as [Hfix Hloop].
  split; [|split; [|split; [|split]]]; try (intros edits; cbv zeta).
  - destruct (Hfix edits) as [[Hnd Hcap] _].
    pose proof (relief_bound _ Hnd Hcap) as Hsum. split; [assumption|].
    unfold FixedAmount.summaryEffect, FixedAmount.computeSummary,
      FixedAmount.calculateSocso; simpl.
    rewrite fold_left_sum_orZero. lra.
  - destruct (Hloop edits) as [[Hnd Hcap] _].
    now apply relief_bound.
  - eval_Q.
  - eval_Q.
  - eval_Q.
Qed.

(** ** Bounds on the bracket walk *)

Lemma walkBrackets_le_rate (R : Q) (bs : list TaxBracket) :
  0 <= R ->
  Forall wellFormedBracket bs -> Forall (fun b => rate b <= R) bs ->
  forall acc r, 0 <= r -> walkBrackets bs acc r <= acc + (r * R) / 100.
Proof.
  intros HR Hwf. induction Hwf as [|b bs Hb _ IH]; intros Hrate acc r Hr;
    cbn [walkBrackets].
  - assert (0 <= r * R) by (now apply Qmult_le_0_compat).
    rewrite percent. lra.
  - assert (Hb' : rate b <= R) by (now inversion Hrate).
    assert (Hbs : Forall (fun b => rate b <= R) bs) by (now inversion Hrate).
    destruct (leb r 0) eqn:E; [apply leb_le in E | apply leb_gt in E].
    + assert (0 <= r * R) by (now apply Qmult_le_0_compat).
      rewrite percent. lra.
    + destruct (taxableAmountOf_bounds b r Hb E) as [Ht0 Htr].
      set (t := taxableAmountOf b r) in *.
      assert (Hstep : t * rate b <= t * R)
        by (rewrite !(Qmult_comm t); now apply Qmult_le_compat_r).
      eapply Qle_trans; [apply IH; [assumption | lra]|].
      rewrite !percent. lra.
Qed.

(** The tax on a larger income exceeds the tax on a smaller one by no more
    than the top rate applied to the difference. *)
Lemma walkBrackets_marginal (R : Q) (bs : list TaxBracket) :
  0 <= R ->
  Forall wellFormedBracket bs -> Forall (fun b => rate b <= R) bs ->
  forall acc1 acc2 r1 r2, r1 <= r2 ->
  walkBrackets bs acc2 r2 - walkBrackets bs acc1 r1
  <= (acc2 - acc1) + ((r2 - r1) * R) / 100.
Proof.
  intros HR Hwf. induction Hwf as [|b bs Hb Hwf IH];
    intros Hrate acc1 acc2 r1 r2 Hr; cbn [walkBrackets].
  - assert (0 <= (r2 - r1) * R) by (apply Qmult_le_0_compat; lra).
    rewrite percent. lra.
  - assert (Hb' : rate b <= R) by (now inversion Hrate).
    assert (Hbs : Forall (fun b => rate b <= R) bs) by (now inversion Hrate).
    assert (Hgap : 0 <= (r2 - r1) * R) by (apply Qmult_le_0_compat; lra).
    destruct (leb r1 0) eqn:E1; [apply leb_le in E1 | apply leb_gt in E1];
    (destruct (leb r2 0) eqn:E2; [apply leb_le in E2 | apply leb_gt in E2]);
    try lra.
    + rewrite percent. lra.
    + assert (Hr2 : 0 <= r2) by lra.
      pose proof (walkBrackets_le_rate R (b :: bs) HR
                    (Forall_cons b Hb Hwf) Hrate acc2 r2 Hr2) as Hle.
      cbn [walkBrackets] in Hle. rewrite (gt_leb _ _ E2) in Hle.
      cbv iota in Hle.
      set (w := walkBrackets bs _ _) in *.
      assert (r2 * R <= (r2 - r1) * R)
        by (apply Qmult_le_compat_r; lra).
      rewrite !percent in Hle. rewrite !percent. lra.
    + destruct (taxableAmountOf_monotone b r1 r2 Hr) as [Ht Hrest].
      set (t1 := taxableAmountOf b r1) in *.
      set (t2 := taxableAmountOf b r2) in *.
      assert (Hstep : (t2 - t1) * rate b <= (t2 - t1) * R)
        by (rewrite !(Qmult_comm (t2 - t1)); apply Qmult_le_compat_r; lra).
      pose proof (IH Hbs (acc1 + (t1 * rate b) / 100)
                    (acc2 + (t2 * rate b) / 100) (r1 - t1) (r2 - t2) Hrest)
        as Hind.
      set (w1 := walkBrackets bs _ (r1 - t1)) in *.
      set (w2 := walkBrackets bs _ (r2 - t2)) in *.
      rewrite !percent in Hind. rewrite !percent. lra.
Qed.

Lemma table_rates :
  Forall (fun b => rate b <= 30) FixedAmount.taxBrackets /\
  Forall (fun b => rate b <= 28) BracketWalk.taxBrackets.
Proof. split; repeat constructor; discriminate. Qed.

(** The lookup never asks for more than 30 percent of the income. *)
Lemma lookup_le_top_rate (t : Q) :
  0 <= t -> FixedAmount.calculateTax t <= (t * 30) / 100.
Proof.
  intros Ht.
  destruct (find (inRange t) FixedAmount.taxRanges) as [r|] eqn:E.
  - apply find_some in E as [Hin Hr].
    rewrite <- (walk_lookup_same_table t r Hin Hr).
    eapply Qle_trans.
    + apply (walkBrackets_le_rate 30);
        [discriminate | apply wellFormed_tables | apply table_rates
        | assumption].
    + lra.
  - unfold FixedAmount.calculateTax, calculateTaxLookup. rewrite E.
    rewrite percent. destruct (leb t 0); lra.
Qed.

Lemma walk_le_top_rate (t : Q) :
  0 <= t -> BracketWalk.calculateTax t <= (t * 28) / 100.
Proof.
  intros Ht. eapply Qle_trans.
  - apply (walkBrackets_le_rate 28);
      [discriminate | apply wellFormed_tables | apply table_rates
      | assumption].
  - lra.
Qed.

(** X15.  In the loop revision the tax on a larger income exceeds the tax on
    a smaller one by at most 28 percent of the difference, so income after
    tax never falls when income rises; the lookup revision has the same
    property, with 30 percent, between incomes that lie within ranges of
    its table. *)
Theorem tax_rises_slower_than_income (x y : Q) :
  x <= y ->
  (BracketWalk.calculateTax y - BracketWalk.calculateTax x
   <= ((y - x) * 28) / 100 /\
   x - BracketWalk.calculateTax x <= y - BracketWalk.calculateTax y) /\
  (forall rx ry,
     In rx FixedAmount.taxRanges -> inRange x rx = true ->
     In ry FixedAmount.taxRanges -> inRange y ry = true ->
     FixedAmount.calculateTax y - FixedAmount.calculateTax x
     <= ((y - x) * 30) / 100 /\
     x - FixedAmount.calculateTax x <= y - FixedAmount.calculateTax y).
Proof.
  intros Hxy. split.
  - pose proof (walkBrackets_marginal 28 BracketWalk.taxBrackets
                  ltac:(discriminate) (proj2 wellFormed_tables)
                  (proj2 table_rates) 0 0 x y Hxy) as H.
    unfold BracketWalk.calculateTax, calculateTaxWalk.
    rewrite percent in H. rewrite percent. split; lra.
  - intros rx ry Hrx Hx Hry Hy.
    rewrite <- (walk_lookup_same_table x rx Hrx Hx).
    rewrite <- (walk_lookup_same_table y ry Hry Hy).
    pose proof (walkBrackets_marginal 30 FixedAmount.taxBrackets
                  ltac:(discriminate) (proj1 wellFormed_tables)
                  (proj1 table_rates) 0 0 x y Hxy) as H.
    unfold calculateTaxWalk. rewrite percent in H. rewrite percent.
    split; lra.
Qed.

(** ** Contributions of the loop revision *)

Lemma twelfth (income : Q) : income / 12 * 12 == income.
Proof. field. Qed.

Lemma calculateSocso_annual (socso : bool) (income : Q) :
  LoopRevision.calculateSocso socso (income / 12)
  == if socso then
       if leb income 60000 then income * 0.005 else income * 0.006
     else 0.
Proof.
  unfold LoopRevision.calculateSocso. destruct socso; simpl; [|reflexivity].
  assert (Hleb : leb (income / 12) 5000 = leb income 60000).
  { destruct (leb income 60000) eqn:E.
    - apply leb_le in E. apply le_leb.
      apply Qle_shift_div_r; [reflexivity | lra].
    - apply leb_gt in E. apply gt_leb.
      apply Qlt_shift_div_l; [reflexivity | lra]. }
  rewrite Hleb. destruct (leb income 60000); rewrite twelfth; reflexivity.
Qed.

Lemma loop_contributions_nonneg (income : Q) (epf socso : bool) :
  0 <= income ->
  0 <= (if epf then income * 0.11 else 0)
       + LoopRevision.calculateSocso socso (income / 12).
Proof.
  intros Hincome. rewrite calculateSocso_annual.
  destruct epf, socso; try destruct (leb income 60000); lra.
Qed.

Lemma parseNumber_income_nonneg_loop (edits : list LoopRevision.Edit) :
  0 <= parseNumber (LoopRevision.annualIncome (LoopRevision.run edits)).
Proof.
  unfold LoopRevision.run.
  apply (loop_run_invariant
           (fun st => 0 <= parseNumber (LoopRevision.annualIncome st))).
  - intros st [v|v|v|k v|k v] Hst; simpl; try assumption.
    apply parseNumber_formatNumber_nonneg.
  - discriminate.
Qed.

(** ** Rebates, reliefs and the effective rate *)

Lemma Qmax_le_compat (a b : Q) : a <= b -> Qmax 0 a <= Qmax 0 b.
Proof. intros H. apply Q.max_le_compat_l. assumption. Qed.

Lemma calculateTax_nonneg (t : Q) :
  0 <= FixedAmount.calculateTax t /\ 0 <= BracketWalk.calculateTax t.
Proof.
  split.
  - apply calculateTaxLookup_nonneg; repeat constructor; discriminate.
  - eapply Qle_trans; [|apply walkBrackets_ge_acc, wellFormed_tables]. lra.
Qed.

(** X13.  In both forms rebates leave the taxable income alone; rebates that
    are not negative never make the tax payable exceed the tax computed on
    the taxable income, and a larger sum of rebates never gives a larger
    tax payable. *)
Theorem rebates_only_lower_tax (income epfDeduction socsoDeduction : Q)
    (epf socso : bool) (deductions rebates rebates' : NumberRecord) :
  let lookup r := FixedAmount.computeSummary income epfDeduction
                    socsoDeduction deductions r in
  let loop r := LoopRevision.computeSummary income epf socso deductions r in
  (nonNegativeEntries rebates ->
   FixedAmount.taxAmount (lookup rebates)
   <= FixedAmount.calculateTax (FixedAmount.taxableIncome (lookup rebates)) /\
   LoopRevision.taxAmount (loop rebates)
   <= BracketWalk.calculateTax (LoopRevision.taxableIncome (loop rebates))) /\
  (sumOf (values rebates) <= sumOf (values rebates') ->
   FixedAmount.taxAmount (lookup rebates')
   <= FixedAmount.taxAmount (lookup rebates) /\
   LoopRevision.taxAmount (loop rebates')
   <= LoopRevision.taxAmount (loop rebates)) /\
  FixedAmount.taxableIncome (lookup rebates')
  = FixedAmount.taxableIncome (lookup rebates) /\
  LoopRevision.taxableIncome (loop rebates')
  = LoopRevision.taxableIncome (loop rebates).
Proof.
  cbv zeta.
  unfold FixedAmount.computeSummary, LoopRevision.computeSummary; simpl.
  set (t := Qmax 0 (income - (epfDeduction + socsoDeduction + _))).
  set (t' := Qmax 0 (income - (_ + LoopRevision.calculateSocso _ _ + _))).
  pose proof (fold_left_sum (values rebates) 0) as Hs.
  pose proof (fold_left_sum (values rebates') 0) as Hs'.
  set (s := fold_left _ (values rebates) 0) in *.
  set (s' := fold_left _ (values rebates') 0) in *.
  pose proof (proj1 (calculateTax_nonneg t)) as Hlookup.
  pose proof (proj2 (calculateTax_nonneg t')) as Hloop.
  split; [|split; [|split; reflexivity]].
  - intros Hreb. pose proof (sumOf_nonneg rebates Hreb).
    split; apply Q.max_lub; lra.
  - intros Hle. split; apply Qmax_le_compat; lra.
Qed.

(** X14.  In every state either form can reach in which no deduction and no
    rebate is negative, the effective rate is at most the top rate of the
    table: 30 in the lookup form, 28 in the loop form. *)
Theorem effectiveRate_below_top_rate :
  (forall edits,
     let st := FixedAmount.run edits in
     nonNegativeEntries (FixedAmount.deductions st) ->
     nonNegativeEntries (FixedAmount.rebates st) ->
     FixedAmount.effectiveRate (FixedAmount.summaryEffect st) <= 30) /\
  (forall edits,
     let st := LoopRevision.run edits in
     nonNegativeEntries (LoopRevision.deductions st) ->
     nonNegativeEntries (LoopRevision.rebates st) ->
     LoopRevision.effectiveRate (LoopRevision.summaryEffect st) <= 28).
Proof.
  assert (Hrate : forall income tax taxable R,
            0 < income -> 0 <= tax -> 0 <= R ->
            taxable <= income -> tax <= (taxable * R) / 100 ->
            (tax / income) * 100 <= R).
  { intros income tax taxable R Hinc Htax HR Hle Hbound.
    assert (Hdiv : tax / income <= R / 100).
    { apply Qle_shift_div_r; [assumption|].
      assert (taxable * R <= income * R)
        by (apply Qmult_le_compat_r; assumption).
      rewrite percent in *. lra. }
    rewrite percent in Hdiv. lra. }
  split; intros edits; cbv zeta; intros Hded Hreb.
  - unfold FixedAmount.summaryEffect, FixedAmount.calculateSocso.
    destruct (run_contributions_nonneg edits) as [Hepf Hsocso].
    set (st := FixedAmount.run edits) in *.
    unfold FixedAmount.computeSummary; simpl.
    destruct (gtb (parseNumber (FixedAmount.annualIncome st)) 0) eqn:E;
      [|discriminate].
    apply gtb_lt in E.
    pose proof (fold_left_sum_orZero (values (FixedAmount.deductions st)) 0)
      as Hsum.
    pose proof (fold_left_sum (values (FixedAmount.rebates st)) 0) as Hrsum.
    pose proof (sumOf_nonneg _ Hded). pose proof (sumOf_nonneg _ Hreb).
    set (relief := fold_left _ (values (FixedAmount.deductions st)) 0) in *.
    set (rebate := fold_left _ (values (FixedAmount.rebates st)) 0) in *.
    set (taxable := Qmax 0 (_ - (_ + _ + relief))).
    assert (Htaxable : 0 <= taxable /\
              taxable <= parseNumber (FixedAmount.annualIncome st)).
    { split; [apply Q.le_max_l | apply Q.max_lub; lra]. }
    pose proof (lookup_le_top_rate taxable (proj1 Htaxable)) as Hbound.
    pose proof (proj1 (calculateTax_nonneg taxable)) as Hnonneg.
    apply (Hrate _ _ taxable);
      [assumption | apply Q.le_max_l | discriminate | apply Htaxable |].
    eapply Qle_trans; [apply Q.max_lub|exact Hbound]; lra.
  - unfold LoopRevision.summaryEffect.
    set (st := LoopRevision.run edits) in *.
    pose proof (parseNumber_income_nonneg_loop edits) as Hincome.
    fold st in Hincome.
    unfold LoopRevision.computeSummary; simpl.
    destruct (gtb (parseNumber (LoopRevision.annualIncome st)) 0) eqn:E;
      [|discriminate].
    apply gtb_lt in E.
    pose proof (fold_left_sum_orZero (values (LoopRevision.deductions st)) 0)
      as Hsum.
    pose proof (fold_left_sum (values (LoopRevision.rebates st)) 0) as Hrsum.
    pose proof (sumOf_nonneg _ Hded). pose proof (sumOf_nonneg _ Hreb).
    pose proof (loop_contributions_nonneg
                  (parseNumber (LoopRevision.annualIncome st))
                  (LoopRevision.epf st) (LoopRevision.socso st) Hincome)
      as Hcontrib.
    set (relief := fold_left _ (values (LoopRevision.deductions st)) 0) in *.
    set (rebate := fold_left _ (values (LoopRevision.rebates st)) 0) in *.
    set (contrib := _ + LoopRevision.calculateSocso _ _) in *.
    set (taxable := Qmax 0 (_ - (contrib + relief))).
    assert (Htaxable : 0 <= taxable /\
              taxable <= parseNumber (LoopRevision.annualIncome st)).
    { split; [apply Q.le_max_l | apply Q.max_lub; lra]. }
    pose proof (walk_le_top_rate taxable (proj1 Htaxable)) as Hbound.
    pose proof (proj2 (calculateTax_nonneg taxable)) as Hnonneg.
    apply (Hrate _ _ taxable);
      [assumption | apply Q.le_max_l | discriminate | apply Htaxable |].
    eapply Qle_trans; [apply Q.max_lub|exact Hbound]; lra.
Qed.

(** ** The tax-free band *)

(** A table that opens with the bands 0 - 5,000 at 0 and 5,001 - 20,000 at
    1 percent taxes exactly the incomes above 5,001. *)
Lemma walk_tax_free_band (rest : list TaxBracket) (x : Q) :
  Forall wellFormedBracket rest ->
  (calculateTaxWalk
     (mkBracket 0 (Some 5000) 0 :: mkBracket 5001 (Some 20000) 1 :: rest) x
   == 0 <-> x <= 5001).
Proof.
  intros Hrest. unfold calculateTaxWalk. split.
  - intros Hzero. apply Qnot_lt_le. intros Hx.
    rewrite walk_through in Hzero by (try reflexivity; lra).
    cbn [walkBrackets] in Hzero.
    rewrite gt_leb in Hzero by lra.
    pose proof (walkBrackets_ge_acc rest Hrest
                  (0 + ((5000 - 0 + 1) * 0) / 100 +
                   (taxableAmountOf (mkBracket 5001 (Some 20000) 1)
                      (x - (5000 - 0 + 1)) * rate (mkBracket 5001 (Some 20000) 1)) / 100)
                  (x - (5000 - 0 + 1) -
                   taxableAmountOf (mkBracket 5001 (Some 20000) 1)
                     (x - (5000 - 0 + 1))))
      as Hge.
    set (w := walkBrackets rest _ _) in *.
    unfold taxableAmountOf in Hge; simpl in Hge.
    rewrite !percent in Hge.
    destruct (Q.min_spec (x - (5000 - 0 + 1)) (20000 - 5001 + 1))
      as [[? Hmin] | [? Hmin]]; rewrite Hmin in Hge; lra.
  - intros Hx. destruct (Qlt_le_dec 0 x) as [Hpos | Hneg].
    + rewrite walk_last by (try reflexivity; lra). rewrite percent. lra.
    + rewrite walkBrackets_done by lra. reflexivity.
Qed.

(** X16.  The loop revision taxes an income at 0 exactly when it is at most
    5,001; so does the lookup revision on every income that lies within a
    range of its table. *)
Theorem tax_free_up_to_5001 (x : Q) :
  (BracketWalk.calculateTax x == 0 <-> x <= 5001) /\
  (forall r, In r FixedAmount.taxRanges -> inRange x r = true ->
     (FixedAmount.calculateTax x == 0 <-> x <= 5001)).
Proof.
  split.
  - apply walk_tax_free_band.
    pose proof (proj2 wellFormed_tables) as H.
    inversion H as [|? ? _ H1]. now inversion H1.
  - intros r Hin Hr. rewrite <- (walk_lookup_same_table x r Hin Hr).
    apply walk_tax_free_band.
    pose proof (proj1 wellFormed_tables) as H.
    inversion H as [|? ? _ H1]. now inversion H1.
Qed.

(** ** The summary of the loop revision *)

(** X17.  In the loop form the total deductions are 11 percent of the income
    when EPF is ticked, plus, when SOCSO is ticked, 0.5 percent of the
    income up to 60,000 a year and 0.6 percent above, plus the reliefs; the
    taxable income is the income less that total, floored at 0; with an
    income and reliefs that are not negative the total is not negative and
    the taxable income is at most the income. *)
Theorem loop_totalDeductions (income : Q) (epf socso : bool)
    (deductions rebates : NumberRecord) :
  let r := LoopRevision.computeSummary income epf socso deductions rebates in
  LoopRevision.totalDeductions r
  == (if epf then income * 0.11 else 0)
     + (if socso
        then if leb income 60000 then income * 0.005 else income * 0.006
        else 0)
     + sumOf (values deductions) /\
  LoopRevision.taxableIncome r
  == Qmax 0 (income - LoopRevision.totalDeductions r) /\
  (0 <= income -> nonNegativeEntries deductions ->
   0 <= LoopRevision.totalDeductions r /\
   LoopRevision.taxableIncome r <= income).
Proof.
  cbv zeta. unfold LoopRevision.computeSummary; simpl.
  pose proof (calculateSocso_annual socso income) as Hsocso.
  pose proof (fold_left_sum_orZero (values deductions) 0) as Hsum.
  set (relief := fold_left _ (values deductions) 0) in *.
  set (contribution := LoopRevision.calculateSocso socso (income / 12)) in *.
  split; [rewrite Hsocso, Hsum; lra|]. split; [reflexivity|].
  intros Hincome Hded. pose proof (sumOf_nonneg deductions Hded).
  assert (Hc : 0 <= (if epf then income * 0.11 else 0) + contribution).
  { rewrite Hsocso. destruct epf, socso; try destruct (leb income 60000); lra. }
  split; [lra | apply Q.max_lub; lra].
Qed.

(** X18.  In the loop form with both boxes ticked, the step of the SOCSO rate
    at 60,000 makes every income between 60,000 and 60,067 have a smaller
    taxable income, and no larger tax, than the income 60,000 itself
    (reliefs up to 53,000). *)
Theorem socso_step_lowers_taxable_income (income : Q)
    (deductions rebates : NumberRecord) :
  60000 < income -> income < 60067 ->
  sumOf (values deductions) <= 53000 ->
  LoopRevision.taxableIncome
    (LoopRevision.computeSummary income true true deductions rebates)
  < LoopRevision.taxableIncome
      (LoopRevision.computeSummary 60000 true true deductions rebates) /\
  LoopRevision.taxAmount
    (LoopRevision.computeSummary income true true deductions rebates)
  <= LoopRevision.taxAmount
      (LoopRevision.computeSummary 60000 true true deductions rebates).
Proof.
  intros Hlo Hhi Hrelief.
  unfold LoopRevision.computeSummary; simpl.
  pose proof (calculateSocso_annual true income) as Hs1.
  pose proof (calculateSocso_annual true 60000) as Hs2.
  cbv iota in Hs1, Hs2.
  rewrite (gt_leb income 60000 Hlo) in Hs1.
  change (leb 60000 60000) with true in Hs2. cbv iota in Hs2.
  pose proof (fold_left_sum_orZero (values deductions) 0) as Hsum.
  set (relief := fold_left _ (values deductions) 0) in *.
  set (c1 := LoopRevision.calculateSocso true (income / 12)) in *.
  set (c2 := LoopRevision.calculateSocso true (60000 / 12)) in *.
  assert (Hlt : Qmax 0 (income - (income * 0.11 + c1 + relief))
                < Qmax 0 (60000 - (60000 * 0.11 + c2 + relief))).
  { destruct (Q.max_spec 0 (income - (income * 0.11 + c1 + relief)))
      as [[? H1] | [? H1]];
    destruct (Q.max_spec 0 (60000 - (60000 * 0.11 + c2 + relief)))
      as [[? H2] | [? H2]]; rewrite H1, H2; lra. }
  split; [exact Hlt|].
  apply Qmax_le_compat.
  assert (BracketWalk.calculateTax
            (Qmax 0 (income - (income * 0.11 + c1 + relief)))
          <= BracketWalk.calculateTax
               (Qmax 0 (60000 - (60000 * 0.11 + c2 + relief))))
    by (apply walkBrackets_monotone;
        [apply wellFormed_tables | lra | lra]).
  lra.
Qed.

(** X19.  In the loop form a larger sum of reliefs never gives a larger
    taxable income or a larger tax payable. *)
Theorem more_relief_never_more_tax (income : Q) (epf socso : bool)
    (deductions deductions' rebates : NumberRecord) :
  sumOf (values deductions) <= sumOf (values deductions') ->
  let less := LoopRevision.computeSummary income epf socso
                deductions rebates in
  let more := LoopRevision.computeSummary income epf socso
                deductions' rebates in
  LoopRevision.taxableIncome more <= LoopRevision.taxableIncome less /\
  LoopRevision.taxAmount more <= LoopRevision.taxAmount less.
Proof.
  intros Hle. cbv zeta. unfold LoopRevision.computeSummary; simpl.
  pose proof (fold_left_sum_orZero (values deductions) 0) as Hsum.
  pose proof (fold_left_sum_orZero (values deductions') 0) as Hsum'.
  set (relief := fold_left _ (values deductions) 0) in *.
  set (relief' := fold_left _ (values deductions') 0) in *.
  set (c := _ + LoopRevision.calculateSocso _ _).
  assert (Hti : Qmax 0 (income - (c + relief'))
                <= Qmax 0 (income - (c + relief)))
    by (apply Qmax_le_compat; lra).
  split; [exact Hti|].
  apply Qmax_le_compat.
  assert (BracketWalk.calculateTax (Qmax 0 (income - (c + relief')))
          <= BracketWalk.calculateTax (Qmax 0 (income - (c + relief))))
    by (apply walkBrackets_monotone;
        [apply wellFormed_tables | lra | assumption]).
  lra.
Qed.

(** ** Witnesses *)

Lemma groupThousands_commas_witness :
  allChars (fun c => negb (Ascii.eqb c ","%char)) "1234567" = true /\
  groupThousands "1234567" = "1,234,567"%string /\
  removeCommas (groupThousands "1234567") = "1234567"%string /\
  String.length (groupThousands "1234567") = 9%nat.
Proof.
  assert (H : allChars (fun c => negb (Ascii.eqb c ","%char)) "1234567" = true)
    by reflexivity.
  split; [exact H|]. split; [reflexivity|].
  exact (groupThousands_commas "1234567" H).
Defined.

Lemma formatted_decimal_value_witness :
  allChars isDigit "1234567" = true /\ allChars isDigit "50" = true /\
  formatNumber "1234567.50" = "1,234,567.50"%string /\
  parseNumber (formatNumber "1234567.50") == decimalValue "1234567" "50" /\
  parseNumber (formatNumber "1234567") == inject_Z (digitsValue 0 "1234567").
Proof.
  assert (Hip : allChars isDigit "1234567" = true) by reflexivity.
  assert (Hd : allChars isDigit "50" = true) by reflexivity.
  split; [exact Hip|]. split; [exact Hd|]. split; [reflexivity|].
  exact (formatted_decimal_value "1234567" "50" Hip Hd).
Defined.

Lemma parseNumber_no_digit_witness :
  allChars notDigit "RM -.,e" = true /\
  spellsInfinity (removeCommas "RM -.,e") = false /\
  parseNumber "RM -.,e" = 0 /\ parseNumber (formatNumber "RM -.,e") = 0.
Proof.
  assert (H : allChars notDigit "RM -.,e" = true) by reflexivity.
  assert (Hinf : spellsInfinity (removeCommas "RM -.,e") = false)
    by reflexivity.
  destruct (parseNumber_no_digit "RM -.,e" H) as [Hraw Hformatted].
  split; [exact H|]. split; [exact Hinf|].
  split; [exact (Hraw Hinf) | exact Hformatted].
Defined.

(** X2.  Whatever is typed, the formatted text holds digits, commas and dots
    only; it is a digit string grouped in thousands, followed or not by one
    dot and at least one digit. *)
Theorem formatNumber_shape (value : string) :
  allChars isFormatChar (formatNumber value) = true /\
  exists integerPart decimalPart,
    allChars isDigit integerPart = true /\
    allChars isDigit decimalPart = true /\
    formatNumber value
    = (groupThousands integerPart ++
       match decimalPart with
       | EmptyString => EmptyString
       | _ => String "."%char decimalPart
       end)%string.
Proof.
  pose proof (formatNumber_parts value) as Hparts. split; [|exact Hparts].
  destruct Hparts as (ip & d & Hip & Hd & ->).
  assert (Hfmt : forall s, allChars isDigit s = true ->
                           allChars isFormatChar s = true).
  { intros s. apply allChars_weaken. intros c Hc.
    unfold isFormatChar. now rewrite Hc. }
  rewrite allChars_app.
  rewrite allChars_groupThousands by (auto; reflexivity).
  destruct d as [|c t]; [reflexivity|].
  cbn [allChars andb]. change (isFormatChar "."%char) with true.
  exact (Hfmt _ Hd).
Qed.

(** X10.  An edit changes the sum of the record by the difference between
    the amount stored and the amount it replaces (0 when there was none);
    an edit with an id outside the catalogue leaves the sum of the
    deductions alone. *)
Theorem edit_changes_total_by_difference (key value : string)
    (prev : NumberRecord) :
  let old := match getEntry key prev with Some w => w | None => 0 end in
  (forall d, findDeduction key = Some d ->
     sumOf (values (handleDeductionChange key value prev))
     == sumOf (values prev) - old + Qmin (parseNumber value) (maxAmount d)) /\
  (findDeduction key = None ->
     sumOf (values (handleDeductionChange key value prev))
     == sumOf (values prev)) /\
  sumOf (values (handleRebateChange key value prev))
  == sumOf (values prev) - old + parseNumber value.
Proof.
  cbv zeta. unfold handleDeductionChange, handleRebateChange.
  split; [|split].
  - intros d ->. apply sumOf_setEntry.
  - intros ->. reflexivity.
  - apply sumOf_setEntry.
Qed.

Lemma edit_changes_total_by_difference_witness :
  let prev := [("personal"%string, 9000); ("medical"%string, 500)] in
  (exists d, findDeduction "medical" = Some d /\
     sumOf (values (handleDeductionChange "medical" "12,000" prev))
     == sumOf (values prev) - 500 + Qmin (parseNumber "12,000") (maxAmount d)) /\
  findDeduction "pets" = None /\
  sumOf (values (handleDeductionChange "pets" "100" prev))
  == sumOf (values prev).
Proof.
  cbv zeta.
  destruct (edit_changes_total_by_difference "medical" "12,000"
              [("personal"%string, 9000); ("medical"%string, 500)])
    as (Hknown & _ & _).
  destruct (edit_changes_total_by_difference "pets" "100"
              [("personal"%string, 9000); ("medical"%string, 500)])
    as (_ & Hunknown & _).
  split.
  - eexists. split; [reflexivity|]. apply Hknown. reflexivity.
  - split; [reflexivity|]. apply Hunknown. reflexivity.
Defined.

Lemma handleDeductionChange_effect_witness :
  (exists d, findDeduction "personal" = Some d /\
     maxAmount d <= parseNumber "15,000" /\
     exists stored,
       getEntry "personal"
         (handleDeductionChange "personal" "15,000" defaultDeductions)
       = Some stored /\ stored == maxAmount d) /\
  findDeduction "pets" = None /\
  handleDeductionChange "pets" "100" defaultDeductions = defaultDeductions.
Proof.
  destruct (handleDeductionChange_effect "personal" "15,000"
              defaultDeductions) as (Hknown & _ & _).
  destruct (handleDeductionChange_effect "pets" "100" defaultDeductions)
    as (_ & Hunknown & _).
  split.
  - eexists. split; [reflexivity|].
    assert (Hle : 9000 <= parseNumber "15,000") by (vm_compute; discriminate).
    split; [exact Hle|].
    exact (proj2 (Hknown _ eq_refl) Hle).
  - split; [reflexivity|]. apply Hunknown. reflexivity.
Defined.

Lemma handlers_commute_witness :
  "medical"%string <> "education"%string /\
  getEntry "medical"
    (handleDeductionChange "medical" "100"
       (handleDeductionChange "education" "200" defaultDeductions))
  = getEntry "medical"
      (handleDeductionChange "education" "200"
         (handleDeductionChange "medical" "100" defaultDeductions)).
Proof.
  assert (Hne : "medical"%string <> "education"%string) by discriminate.
  split; [exact Hne|].
  exact (proj1 (handlers_commute "medical" "education" "100" "200"
                  defaultDeductions Hne "medical")).
Defined.

Lemma rebates_only_lower_tax_witness :
  let rebates := [("individual"%string, 400); ("zakat"%string, 0)] in
  let rebates' := [("individual"%string, 400); ("zakat"%string, 1000)] in
  let deductions := [("personal"%string, 9000)] in
  nonNegativeEntries rebates /\
  sumOf (values rebates) <= sumOf (values rebates') /\
  FixedAmount.taxAmount
    (FixedAmount.computeSummary 100000 0 0 deductions rebates')
  <= FixedAmount.taxAmount
       (FixedAmount.computeSummary 100000 0 0 deductions rebates) /\
  LoopRevision.taxAmount
    (LoopRevision.computeSummary 100000 true true deductions rebates)
  <= BracketWalk.calculateTax
       (LoopRevision.taxableIncome
          (LoopRevision.computeSummary 100000 true true deductions rebates)).
Proof.
  cbv zeta.
  assert (Hnn : nonNegativeEntries
                  [("individual"%string, 400); ("zakat"%string, 0)])
    by (repeat constructor; discriminate).
  assert (Hle : sumOf (values [("individual"%string, 400); ("zakat"%string, 0)])
                <= sumOf (values [("individual"%string, 400);
                                  ("zakat"%string, 1000)]))
    by (vm_compute; discriminate).
  destruct (rebates_only_lower_tax 100000 0 0 true true
              [("personal"%string, 9000)]
              [("individual"%string, 400); ("zakat"%string, 0)]
              [("individual"%string, 400); ("zakat"%string, 1000)])
    as (Hbelow & Hmono & _).
  split; [exact Hnn|]. split; [exact Hle|].
  split; [exact (proj1 (Hmono Hle)) | exact (proj2 (Hbelow Hnn))].
Defined.

Lemma effectiveRate_below_top_rate_witness :
  nonNegativeEntries
    (FixedAmount.deductions
       (FixedAmount.run [FixedAmount.IncomeEdit "3,000,000"])) /\
  nonNegativeEntries
    (FixedAmount.rebates
       (FixedAmount.run [FixedAmount.IncomeEdit "3,000,000"])) /\
  FixedAmount.effectiveRate
    (FixedAmount.summaryEffect
       (FixedAmount.run [FixedAmount.IncomeEdit "3,000,000"])) <= 30 /\
  LoopRevision.effectiveRate
    (LoopRevision.summaryEffect
       (LoopRevision.run [LoopRevision.IncomeEdit "3,000,000"])) <= 28.
Proof.
  assert (Hd : nonNegativeEntries
                 (FixedAmount.deductions
                    (FixedAmount.run [FixedAmount.IncomeEdit "3,000,000"])))
    by (repeat constructor; discriminate).
  assert (Hr : nonNegativeEntries
                 (FixedAmount.rebates
                    (FixedAmount.run [FixedAmount.IncomeEdit "3,000,000"])))
    by (repeat constructor; discriminate).
  assert (Hd' : nonNegativeEntries
                  (LoopRevision.deductions
                     (LoopRevision.run [LoopRevision.IncomeEdit "3,000,000"])))
    by (repeat constructor; discriminate).
  assert (Hr' : nonNegativeEntries
                  (LoopRevision.rebates
                     (LoopRevision.run [LoopRevision.IncomeEdit "3,000,000"])))
    by (repeat constructor; discriminate).
  split; [exact Hd|]. split; [exact Hr|]. split.
  - exact (proj1 effectiveRate_below_top_rate
             [FixedAmount.IncomeEdit "3,000,000"] Hd Hr).
  - exact (proj2 effectiveRate_below_top_rate
             [LoopRevision.IncomeEdit "3,000,000"] Hd' Hr').
Defined.

Lemma tax_rises_slower_than_income_witness :
  50000 <= 51000 /\
  BracketWalk.calculateTax 51000 - BracketWalk.calculateTax 50000
  <= ((51000 - 50000) * 28) / 100 /\
  50000 - FixedAmount.calculateTax 50000
  <= 51000 - FixedAmount.calculateTax 51000.
Proof.
  assert (Hxy : 50000 <= 51000) by discriminate.
  destruct (tax_rises_slower_than_income 50000 51000 Hxy) as [Hloop Hlookup].
  split; [exact Hxy|]. split; [exact (proj1 Hloop)|].
  refine (proj2 (Hlookup (mkRange 35001 (Some 50000) 600)
                   (mkRange 50001 (Some 70000) 1500) _ eq_refl _ eq_refl)).
  - simpl. do 3 right. left. reflexivity.
  - simpl. do 4 right. left. reflexivity.
Defined.

Lemma tax_free_up_to_5001_witness :
  5001 <= 5001 /\
  BracketWalk.calculateTax 5001 == 0 /\ FixedAmount.calculateTax 5001 == 0.
Proof.
  assert (Hle : 5001 <= 5001) by discriminate.
  destruct (tax_free_up_to_5001 5001) as [Hloop Hlookup].
  split; [exact Hle|]. split.
  - exact (proj2 Hloop Hle).
  - refine (proj2 (Hlookup (mkRange 5001 (Some 20000) 0) _ eq_refl) Hle).
    simpl. right. left. reflexivity.
Defined.

Lemma loop_totalDeductions_witness :
  0 <= 100000 /\ nonNegativeEntries [("personal"%string, 9000)] /\
  LoopRevision.totalDeductions
    (LoopRevision.computeSummary 100000 true true
       [("personal"%string, 9000)] []) == 20600 /\
  0 <= LoopRevision.totalDeductions
         (LoopRevision.computeSummary 100000 true true
            [("personal"%string, 9000)] []).
Proof.
  assert (Hi : 0 <= 100000) by discriminate.
  assert (Hd : nonNegativeEntries [("personal"%string, 9000)])
    by (repeat constructor; discriminate).
  destruct (loop_totalDeductions 100000 true true
              [("personal"%string, 9000)] []) as (Htotal & _ & Hnn).
  split; [exact Hi|]. split; [exact Hd|]. split.
  - rewrite Htotal. vm_compute. reflexivity.
  - exact (proj1 (Hnn Hi Hd)).
Defined.

Lemma socso_step_lowers_taxable_income_witness :
  60000 < 60001 /\ 60001 < 60067 /\
  LoopRevision.taxableIncome
    (LoopRevision.computeSummary 60001 true true
       [("personal"%string, 9000)] [])
  < LoopRevision.taxableIncome
      (LoopRevision.computeSummary 60000 true true
         [("personal"%string, 9000)] []).
Proof.
  assert (Hlo : 60000 < 60001) by reflexivity.
  assert (Hhi : 60001 < 60067) by reflexivity.
  assert (Hs : sumOf (values [("personal"%string, 9000)]) <= 53000)
    by (vm_compute; discriminate).
  split; [exact Hlo|]. split; [exact Hhi|].
  exact (proj1 (socso_step_lowers_taxable_income 60001
                  [("personal"%string, 9000)] [] Hlo Hhi Hs)).
Defined.

Lemma more_relief_never_more_tax_witness :
  sumOf (values [("personal"%string, 9000)])
  <= sumOf (values [("personal"%string, 9000); ("medical"%string, 8000)]) /\
  LoopRevision.taxAmount
    (LoopRevision.computeSummary 100000 true true
       [("personal"%string, 9000); ("medical"%string, 8000)] [])
  <= LoopRevision.taxAmount
       (LoopRevision.computeSummary 100000 true true
          [("personal"%string, 9000)] []).
Proof.
  assert (Hle : sumOf (values [("personal"%string, 9000)])
                <= sumOf (values [("personal"%string, 9000);
                                  ("medical"%string, 8000)]))
    by (vm_compute; discriminate).
  split; [exact Hle|].
  exact (proj2 (more_relief_never_more_tax 100000 true true
                  [("personal"%string, 9000)]
                  [("personal"%string, 9000); ("medical"%string, 8000)]
                  [] Hle)).
Defined.

(** ** Monotonicity *)

(** X20.  The bracket walk never taxes a larger income less, on the table of
    either revision and for every pair of incomes. *)
Theorem loop_tax_monotone (x y : Q) :
  x <= y ->
  BracketWalk.calculateTax x <= BracketWalk.calculateTax y /\
  calculateTaxWalk FixedAmount.taxBrackets x
  <= calculateTaxWalk FixedAmount.taxBrackets y.
Proof.
  intros Hxy. split; apply walkBrackets_monotone;
    solve [apply wellFormed_tables | lra | assumption].
Qed.

Lemma loop_tax_monotone_witness :
  - (3) <= 250000.5 /\
  BracketWalk.calculateTax (- (3)) <= BracketWalk.calculateTax 250000.5.
Proof.
  assert (H : - (3) <= 250000.5) by discriminate.
  split; [exact H | exact (proj1 (loop_tax_monotone _ _ H))].
Defined.

(** X21.  Every whole income from 0 up lies within a range of the lookup
    table; on it the lookup gives what the bracket walk gives on the same
    table, and it never taxes a larger whole income less. *)
Theorem lookup_sound_on_whole_incomes (n m : Z) :
  (0 <= n)%Z -> (n <= m)%Z ->
  (exists r, In r FixedAmount.taxRanges /\ inRange (inject_Z n) r = true) /\
  FixedAmount.calculateTax (inject_Z n)
  == calculateTaxWalk FixedAmount.taxBrackets (inject_Z n) /\
  FixedAmount.calculateTax (inject_Z n)
  <= FixedAmount.calculateTax (inject_Z m).
Proof.
  intros Hn Hnm.
  destruct (whole_income_in_range n Hn) as (rn & Hrn & Hinn).
  destruct (whole_income_in_range m ltac:(lia)) as (rm & Hrm & Hinm).
  split; [now exists rn|]. split.
  - symmetry. exact (walk_lookup_same_table _ rn Hrn Hinn).
  - apply (calculateTax_lookup_monotone_within_ranges _ _ rn rm);
      try assumption.
    now rewrite <- Zle_Qle.
Qed.

Lemma lookup_sound_on_whole_incomes_witness :
  (0 <= 20000)%Z /\ (20000 <= 20001)%Z /\
  FixedAmount.calculateTax (inject_Z 20000)
  <= FixedAmount.calculateTax (inject_Z 20001).
Proof.
  assert (H0 : (0 <= 20000)%Z) by discriminate.
  assert (H1 : (20000 <= 20001)%Z) by discriminate.
  split; [exact H0|]. split; [exact H1|].
  exact (proj2 (proj2 (lookup_sound_on_whole_incomes 20000 20001 H0 H1))).
Defined.

(** X22.  Whatever the inputs, neither form shows a negative effective
    rate. *)
Theorem effectiveRate_never_negative (income epfDeduction socsoDeduction : Q)
    (epf socso : bool) (deductions rebates : NumberRecord) :
  0 <= FixedAmount.effectiveRate
         (FixedAmount.computeSummary income epfDeduction socsoDeduction
            deductions rebates) /\
  0 <= LoopRevision.effectiveRate
         (LoopRevision.computeSummary income epf socso deductions rebates).
Proof.
  split; [apply effectiveRate_nonneg|].
  unfold LoopRevision.computeSummary; simpl.
  destruct (gtb income 0) eqn:E; [|lra].
  apply gtb_lt in E.
  apply Qmult_le_0_compat; [|discriminate].
  apply Qle_shift_div_l; [assumption|].
  rewrite Qmult_0_l. apply Q.le_max_l.
Qed.
